(** * Mini-Cover: the layered canvas renderer (script.js) and its export API

    A shallow embedding of the rendering script of Mini-Cover
    (the image cache, the shared render state, the batched update
    scheduler, the four layer redraws, the compositor and the two export
    paths), followed by the properties proved about it.

    Conventions of the embedding.
    - A JavaScript number is modelled as an exact rational ([Q]); rounding,
      [NaN] and the infinities of binary64 are outside the model, so a
      statement about a quotient assumes its divisor is not zero.  A numeric
      field of the state holds the number its value converts to.
    - A JavaScript string is a [string] of bytes (UTF-8).  Only emptiness,
      concatenation and the character U+000A are ever inspected.
    - A [Map] is an association list in insertion order, oldest first.
    - A canvas is the list of calls issued on its 2D context, oldest first,
      as a recording context would keep it. *)

From Stdlib Require Import List String Ascii Bool Arith Lia ZArith QArith Qminmax.
From Stdlib Require Import DecimalString.
Import ListNotations.

Local Open Scope string_scope.
Local Open Scope nat_scope.

(** ** The built-in [Map], as far as the cache uses it *)

Module JsMap.
Section Entries.
Context {V : Type}.

Definition t : Type := list (string * V).

Fixpoint get (m : t) (key : string) : option V :=
  match m with
  | [] => None
  | (k, v) :: rest => if String.eqb k key then Some v else get rest key
  end.

Definition has (m : t) (key : string) : bool :=
  existsb (fun e => String.eqb (fst e) key) m.

Definition delete (m : t) (key : string) : t :=
  filter (fun e => negb (String.eqb (fst e) key)) m.

(** [Map.prototype.set] overwrites in place when the key is present and
    appends a new entry otherwise. *)
Fixpoint set (m : t) (key : string) (value : V) : t :=
  match m with
  | [] => [(key, value)]
  | (k, v) :: rest =>
      if String.eqb k key then (k, value) :: rest
      else (k, v) :: set rest key value
  end.

Definition size (m : t) : nat := List.length m.

(** [m.keys().next().value]: the oldest key, [undefined] on an empty map. *)
Definition firstKey (m : t) : option string :=
  match m with
  | [] => None
  | (k, _) :: _ => Some k
  end.

Definition keys (m : t) : list string := map fst m.

Definition clear (m : t) : t := [].
End Entries.
Arguments t : clear implicits.
End JsMap.

(** ** class LRUCache *)

Module LRU.
Section Cache.
Context {V : Type}.

Record LRUCache : Type := mk { maxSize : nat; cache : JsMap.t V }.

(** [constructor(maxSize = 50)] *)
Definition new (maxSize : nat) : LRUCache := mk maxSize [].
Definition defaultMaxSize : nat := 50.

Definition with_cache (c : LRUCache) (m : JsMap.t V) : LRUCache :=
  mk (maxSize c) m.

(** [get(key)]: the value (or [null]) and the cache afterwards. *)
Definition get (c : LRUCache) (key : string) : option V * LRUCache :=
  if JsMap.has (cache c) key then
    match JsMap.get (cache c) key with
    | Some value =>
        let m1 := JsMap.delete (cache c) key in
        let m2 := JsMap.set m1 key value in
        (Some value, with_cache c m2)
    | None => (None, c)
    end
  else (None, c).

(** [set(key, value)].  [Map.delete(undefined)] on an empty map removes
    nothing. *)
Definition set (c : LRUCache) (key : string) (value : V) : LRUCache :=
  let m1 :=
    if JsMap.has (cache c) key then JsMap.delete (cache c) key
    else if maxSize c <=? JsMap.size (cache c) then
      match JsMap.firstKey (cache c) with
      | Some firstKey => JsMap.delete (cache c) firstKey
      | None => cache c
      end
    else cache c in
  with_cache c (JsMap.set m1 key value).

Definition clear (c : LRUCache) : LRUCache :=
  with_cache c (JsMap.clear (cache c)).

(** The calls a client can make, and the cache reached by a sequence of
    them. *)
Inductive Op : Type :=
| OpGet (key : string)
| OpSet (key : string) (value : V)
| OpClear.

Definition step (c : LRUCache) (o : Op) : LRUCache :=
  match o with
  | OpGet key => snd (get c key)
  | OpSet key value => set c key value
  | OpClear => clear c
  end.

Definition run (ops : list Op) (c : LRUCache) : LRUCache :=
  fold_left step ops c.

(** The keys a sequence of calls touched, in the order of their last
    touch, oldest first: [set] touches its key, [get] touches its key when
    the key is cached, [clear] forgets every touch. *)
Definition touch (key : string) (order : list string) : list string :=
  filter (fun k => negb (String.eqb k key)) order ++ [key].

Definition touched (c : LRUCache) (o : Op) (order : list string) : list string :=
  match o with
  | OpGet key => if JsMap.has (cache c) key then touch key order else order
  | OpSet key _ => touch key order
  | OpClear => []
  end.

Fixpoint recency (c : LRUCache) (order : list string) (ops : list Op) : list string :=
  match ops with
  | [] => order
  | o :: rest => recency (step c o) (touched c o order) rest
  end.

(** The last [n] elements of a list. *)
Definition lastn {A : Type} (n : nat) (l : list A) : list A :=
  skipn (List.length l - n) l.

(** The cache holds the last [maxSize] keys of [order], oldest first. *)
Definition tracks (c : LRUCache) (order : list string) : Prop :=
  NoDup order /\ JsMap.keys (cache c) = lastn (maxSize c) order.

(** The shape every reachable cache has: no key twice, no more entries
    than [maxSize]. *)
Definition wf (c : LRUCache) : Prop :=
  NoDup (JsMap.keys (cache c)) /\ JsMap.size (cache c) <= maxSize c.
End Cache.
Arguments LRUCache : clear implicits.
Arguments Op : clear implicits.
End LRU.

(** [const imageCache = new LRUCache(30)] *)
Definition imageCacheCapacity : nat := 30.
Definition imageCache0 : LRU.LRUCache string := LRU.new imageCacheCapacity.

(** ** Numbers and strings *)

Local Open Scope Q_scope.

(** [a > b] on numbers. *)
Definition Qgtb (a b : Q) : bool := negb (Qle_bool a b).

(** The number that a length or an index is. *)
Definition Qnat (n : nat) : Q := inject_Z (Z.of_nat n).

(** The decimal text of a non-negative integer, as [+] and template
    strings produce it. *)
Definition decimal (n : N) : string := NilEmpty.string_of_uint (N.to_uint n).

Definition newline : ascii := "010"%char.

(** A string is falsy exactly when it is empty. *)
Definition truthy (s : string) : bool :=
  match s with
  | EmptyString => false
  | String _ _ => true
  end.

(** A value that is [null] or a string. *)
Definition truthy_opt (o : option string) : bool :=
  match o with
  | None => false
  | Some s => truthy s
  end.

(** [s.split('\n')] *)
Fixpoint split_lines (s : string) : list string :=
  match s with
  | EmptyString => [EmptyString]
  | String c rest =>
      if Ascii.eqb c newline then EmptyString :: split_lines rest
      else match split_lines rest with
           | [] => [String c EmptyString]
           | line :: more => String c line :: more
           end
  end.

(** [s.includes('\n')] *)
Fixpoint includes_newline (s : string) : bool :=
  match s with
  | EmptyString => false
  | String c rest => Ascii.eqb c newline || includes_newline rest
  end.

(** ** config.js *)

Module defaultConfig.
Definition text : string := "梦爱吃鱼".
Definition watermark : string := "@梦爱吃鱼".
End defaultConfig.

(** ** Host objects: files, events, decoded images, canvases *)

Module File.
(** [dataURL] is what a [FileReader] yields for the file. *)
Record t : Type := mk { name : string; size : N; dataURL : string }.
End File.

Module Event.
(** [event.target].  [value] is the control's text; [number] is the
    number that text converts to wherever the script does arithmetic on
    it; [files] is the file list of a file input. *)
Record t : Type := mk { value : string; number : Q; files : list File.t }.
End Event.

Module Image.
Record t : Type := mk { src : string; width : Q; height : Q }.
End Image.

(** Calls on a [CanvasRenderingContext2D].  [Rotate] carries the angle in
    degrees; the script passes that angle times pi/180.  [DrawCanvas]
    carries the calls recorded so far on the source canvas and, when the
    five-argument form is used, the destination size. *)
#[warnings="-register-all"]
Inductive CanvasOp : Type :=
| ClearRect (x y w h : Q)
| FillRect (x y w h : Q)
| SetFilterBlur (px : Q)
| SetFillStyle (color : string)
| SetFont (style : string) (px : Q) (family : string)
| SetTextAlign (a : string)
| SetTextBaseline (b : string)
| SetShadowColor (color : string)
| SetShadowBlur (v : Q)
| SetShadowOffsetX (v : Q)
| SetShadowOffsetY (v : Q)
| FillText (line : string) (x y : Q)
| DrawImage (img : Image.t) (x y w h : Q)
| DrawCanvas (source : list CanvasOp) (x y : Q) (dest : option (Q * Q))
| Save
| Restore
| BeginPath
| MoveTo (x y : Q)
| ArcTo (x1 y1 x2 y2 r : Q)
| ClosePath
| Fill
| Clip
| Translate (x y : Q)
| Rotate (degrees : Q).

Module Canvas.
Record t : Type := mk { width : Q; height : Q; ops : list CanvasOp }.

(** [createCanvas(width, height)] *)
Definition create (width height : Q) : t := mk width height [].

Definition call (op : CanvasOp) (c : t) : t :=
  mk (width c) (height c) (ops c ++ [op]).

Definition isClear (op : CanvasOp) : bool :=
  match op with
  | ClearRect _ _ _ _ => true
  | _ => false
  end.

(** How often the surface was wiped.  Every redraw of a layer and every
    compositor pass starts with exactly one [clearRect]. *)
Definition clears (c : t) : nat :=
  List.length (filter isClear (ops c)).

(** The calls issued after the last [clearRect].  The script only ever
    clears a whole surface, so these calls determine the pixels of a
    surface whose context settings were never changed. *)
Fixpoint sinceClear (acc : list CanvasOp) (l : list CanvasOp) : list CanvasOp :=
  match l with
  | [] => acc
  | op :: rest =>
      if isClear op then sinceClear [] rest else sinceClear (acc ++ [op]) rest
  end.

Definition visible (c : t) : list CanvasOp := sinceClear [] (ops c).
End Canvas.

(** An encoded image: the MIME type and quality asked for and the surface
    that was serialized. *)
Module Blob.
Record t : Type := mk { type : string; quality : Q; surface : list CanvasOp; size : nat }.
End Blob.

(** ** The reactive state *)

Module State.
Record t : Type := mk {
  bgImageUrl : option string;
  squareImageUrl : option string;
  bgColor : string;
  textColor : string;
  watermarkColor : string;
  iconColor : string;
  rotation : Q;
  shadowColor : string;
  shadowBlur : Q;
  shadowOffsetX : Q;
  shadowOffsetY : Q;
  shadowStrength : Q;
  watermark : string;
  textSize : Q;
  lineHeight : Q;
  text3D : Q;
  squareSize : Q;
  text : string;
  bgBlur : Q;
  iconBgSize : Q;
  selectedFont : string;
  isFontMenuOpen : bool;
  hasMultipleLines : bool
}.

(** [fontFamily] stands for [import.meta.env.VITE_APP_FONT_FAMILY]; the
    empty string stands for an unset variable. *)
Definition initial (fontFamily : string) : t :=
  mk None None "#ffffff" "#eeeeee" "#dddddd" "#eeeeee" 0 "#646464"
     120 1 1 60 defaultConfig.watermark 200 1 0 300 defaultConfig.text
     3 0 fontFamily false false.

Definition set_bgImageUrl (v : option string) (s : t) : t :=
  mk v (squareImageUrl s) (bgColor s) (textColor s) (watermarkColor s)
     (iconColor s) (rotation s) (shadowColor s) (shadowBlur s)
     (shadowOffsetX s) (shadowOffsetY s) (shadowStrength s) (watermark s)
     (textSize s) (lineHeight s) (text3D s) (squareSize s) (text s)
     (bgBlur s) (iconBgSize s) (selectedFont s) (isFontMenuOpen s)
     (hasMultipleLines s).
Definition set_squareImageUrl (v : option string) (s : t) : t :=
  mk (bgImageUrl s) v (bgColor s) (textColor s) (watermarkColor s)
     (iconColor s) (rotation s) (shadowColor s) (shadowBlur s)
     (shadowOffsetX s) (shadowOffsetY s) (shadowStrength s) (watermark s)
     (textSize s) (lineHeight s) (text3D s) (squareSize s) (text s)
     (bgBlur s) (iconBgSize s) (selectedFont s) (isFontMenuOpen s)
     (hasMultipleLines s).
Definition set_bgColor (v : string) (s : t) : t :=
  mk (bgImageUrl s) (squareImageUrl s) v (textColor s) (watermarkColor s)
     (iconColor s) (rotation s) (shadowColor s) (shadowBlur s)
     (shadowOffsetX s) (shadowOffsetY s) (shadowStrength s) (watermark s)
     (textSize s) (lineHeight s) (text3D s) (squareSize s) (text s)
     (bgBlur s) (iconBgSize s) (selectedFont s) (isFontMenuOpen s)
     (hasMultipleLines s).
Definition set_textColor (v : string) (s : t) : t :=
  mk (bgImageUrl s) (squareImageUrl s) (bgColor s) v (watermarkColor s)
     (iconColor s) (rotation s) (shadowColor s) (shadowBlur s)
     (shadowOffsetX s) (shadowOffsetY s) (shadowStrength s) (watermark s)
     (textSize s) (lineHeight s) (text3D s) (squareSize s) (text s)
     (bgBlur s) (iconBgSize s) (selectedFont s) (isFontMenuOpen s)
     (hasMultipleLines s).
Definition set_watermarkColor (v : string) (s : t) : t :=
  mk (bgImageUrl s) (squareImageUrl s) (bgColor s) (textColor s) v
     (iconColor s) (rotation s) (shadowColor s) (shadowBlur s)
     (shadowOffsetX s) (shadowOffsetY s) (shadowStrength s) (watermark s)
     (textSize s) (lineHeight s) (text3D s) (squareSize s) (text s)
     (bgBlur s) (iconBgSize s) (selectedFont s) (isFontMenuOpen s)
     (hasMultipleLines s).
Definition set_iconColor (v : string) (s : t) : t :=
  mk (bgImageUrl s) (squareImageUrl s) (bgColor s) (textColor s)
     (watermarkColor s) v (rotation s) (shadowColor s) (shadowBlur s)
     (shadowOffsetX s) (shadowOffsetY s) (shadowStrength s) (watermark s)
     (textSize s) (lineHeight s) (text3D s) (squareSize s) (text s)
     (bgBlur s) (iconBgSize s) (selectedFont s) (isFontMenuOpen s)
     (hasMultipleLines s).
Definition set_rotation (v : Q) (s : t) : t :=
  mk (bgImageUrl s) (squareImageUrl s) (bgColor s) (textColor s)
     (watermarkColor s) (iconColor s) v (shadowColor s) (shadowBlur s)
     (shadowOffsetX s) (shadowOffsetY s) (shadowStrength s) (watermark s)
     (textSize s) (lineHeight s) (text3D s) (squareSize s) (text s)
     (bgBlur s) (iconBgSize s) (selectedFont s) (isFontMenuOpen s)
     (hasMultipleLines s).
Definition set_shadowColor (v : string) (s : t) : t :=
  mk (bgImageUrl s) (squareImageUrl s) (bgColor s) (textColor s)
     (watermarkColor s) (iconColor s) (rotation s) v (shadowBlur s)
     (shadowOffsetX s) (shadowOffsetY s) (shadowStrength s) (watermark s)
     (textSize s) (lineHeight s) (text3D s) (squareSize s) (text s)
     (bgBlur s) (iconBgSize s) (selectedFont s) (isFontMenuOpen s)
     (hasMultipleLines s).
Definition set_shadowBlur (v : Q) (s : t) : t :=
  mk (bgImageUrl s) (squareImageUrl s) (bgColor s) (textColor s)
     (watermarkColor s) (iconColor s) (rotation s) (shadowColor s) v
     (shadowOffsetX s) (shadowOffsetY s) (shadowStrength s) (watermark s)
     (textSize s) (lineHeight s) (text3D s) (squareSize s) (text s)
     (bgBlur s) (iconBgSize s) (selectedFont s) (isFontMenuOpen s)
     (hasMultipleLines s).
Definition set_shadowOffsetX (v : Q) (s : t) : t :=
  mk (bgImageUrl s) (squareImageUrl s) (bgColor s) (textColor s)
     (watermarkColor s) (iconColor s) (rotation s) (shadowColor s)
     (shadowBlur s) v (shadowOffsetY s) (shadowStrength s) (watermark s)
     (textSize s) (lineHeight s) (text3D s) (squareSize s) (text s)
     (bgBlur s) (iconBgSize s) (selectedFont s) (isFontMenuOpen s)
     (hasMultipleLines s).
Definition set_shadowOffsetY (v : Q) (s : t) : t :=
  mk (bgImageUrl s) (squareImageUrl s) (bgColor s) (textColor s)
     (watermarkColor s) (iconColor s) (rotation s) (shadowColor s)
     (shadowBlur s) (shadowOffsetX s) v (shadowStrength s) (watermark s)
     (textSize s) (lineHeight s) (text3D s) (squareSize s) (text s)
     (bgBlur s) (iconBgSize s) (selectedFont s) (isFontMenuOpen s)
     (hasMultipleLines s).
Definition set_watermark (v : string) (s : t) : t :=
  mk (bgImageUrl s) (squareImageUrl s) (bgColor s) (textColor s)
     (watermarkColor s) (iconColor s) (rotation s) (shadowColor s)
     (shadowBlur s) (shadowOffsetX s) (shadowOffsetY s) (shadowStrength s) v
     (textSize s) (lineHeight s) (text3D s) (squareSize s) (text s)
     (bgBlur s) (iconBgSize s) (selectedFont s) (isFontMenuOpen s)
     (hasMultipleLines s).
Definition set_textSize (v : Q) (s : t) : t :=
  mk (bgImageUrl s) (squareImageUrl s) (bgColor s) (textColor s)
     (watermarkColor s) (iconColor s) (rotation s) (shadowColor s)
     (shadowBlur s) (shadowOffsetX s) (shadowOffsetY s) (shadowStrength s)
     (watermark s) v (lineHeight s) (text3D s) (squareSize s) (text s)
     (bgBlur s) (iconBgSize s) (selectedFont s) (isFontMenuOpen s)
     (hasMultipleLines s).
Definition set_lineHeight (v : Q) (s : t) : t :=
  mk (bgImageUrl s) (squareImageUrl s) (bgColor s) (textColor s)
     (watermarkColor s) (iconColor s) (rotation s) (shadowColor s)
     (shadowBlur s) (shadowOffsetX s) (shadowOffsetY s) (shadowStrength s)
     (watermark s) (textSize s) v (text3D s) (squareSize s) (text s)
     (bgBlur s) (iconBgSize s) (selectedFont s) (isFontMenuOpen s)
     (hasMultipleLines s).
Definition set_text3D (v : Q) (s : t) : t :=
  mk (bgImageUrl s) (squareImageUrl s) (bgColor s) (textColor s)
     (watermarkColor s) (iconColor s) (rotation s) (shadowColor s)
     (shadowBlur s) (shadowOffsetX s) (shadowOffsetY s) (shadowStrength s)
     (watermark s) (textSize s) (lineHeight s) v (squareSize s) (text s)
     (bgBlur s) (iconBgSize s) (selectedFont s) (isFontMenuOpen s)
     (hasMultipleLines s).
Definition set_squareSize (v : Q) (s : t) : t :=
  mk (bgImageUrl s) (squareImageUrl s) (bgColor s) (textColor s)
     (watermarkColor s) (iconColor s) (rotation s) (shadowColor s)
     (shadowBlur s) (shadowOffsetX s) (shadowOffsetY s) (shadowStrength s)
     (watermark s) (textSize s) (lineHeight s) (text3D s) v (text s)
     (bgBlur s) (iconBgSize s) (selectedFont s) (isFontMenuOpen s)
     (hasMultipleLines s).
Definition set_text (v : string) (s : t) : t :=
  mk (bgImageUrl s) (squareImageUrl s) (bgColor s) (textColor s)
     (watermarkColor s) (iconColor s) (rotation s) (shadowColor s)
     (shadowBlur s) (shadowOffsetX s) (shadowOffsetY s) (shadowStrength s)
     (watermark s) (textSize s) (lineHeight s) (text3D s) (squareSize s) v
     (bgBlur s) (iconBgSize s) (selectedFont s) (isFontMenuOpen s)
     (hasMultipleLines s).
Definition set_bgBlur (v : Q) (s : t) : t :=
  mk (bgImageUrl s) (squareImageUrl s) (bgColor s) (textColor s)
     (watermarkColor s) (iconColor s) (rotation s) (shadowColor s)
     (shadowBlur s) (shadowOffsetX s) (shadowOffsetY s) (shadowStrength s)
     (watermark s) (textSize s) (lineHeight s) (text3D s) (squareSize s)
     (text s) v (iconBgSize s) (selectedFont s) (isFontMenuOpen s)
     (hasMultipleLines s).
Definition set_iconBgSize (v : Q) (s : t) : t :=
  mk (bgImageUrl s) (squareImageUrl s) (bgColor s) (textColor s)
     (watermarkColor s) (iconColor s) (rotation s) (shadowColor s)
     (shadowBlur s) (shadowOffsetX s) (shadowOffsetY s) (shadowStrength s)
     (watermark s) (textSize s) (lineHeight s) (text3D s) (squareSize s)
     (text s) (bgBlur s) v (selectedFont s) (isFontMenuOpen s)
     (hasMultipleLines s).
Definition set_selectedFont (v : string) (s : t) : t :=
  mk (bgImageUrl s) (squareImageUrl s) (bgColor s) (textColor s)
     (watermarkColor s) (iconColor s) (rotation s) (shadowColor s)
     (shadowBlur s) (shadowOffsetX s) (shadowOffsetY s) (shadowStrength s)
     (watermark s) (textSize s) (lineHeight s) (text3D s) (squareSize s)
     (text s) (bgBlur s) (iconBgSize s) v (isFontMenuOpen s)
     (hasMultipleLines s).
Definition set_hasMultipleLines (v : bool) (s : t) : t :=
  mk (bgImageUrl s) (squareImageUrl s) (bgColor s) (textColor s)
     (watermarkColor s) (iconColor s) (rotation s) (shadowColor s)
     (shadowBlur s) (shadowOffsetX s) (shadowOffsetY s) (shadowStrength s)
     (watermark s) (textSize s) (lineHeight s) (text3D s) (squareSize s)
     (text s) (bgBlur s) (iconBgSize s) (selectedFont s) (isFontMenuOpen s)
     v.
End State.

(** ** The module's variables and the host around them *)

(** The two closures handed to [loadImage], and the two images a redraw
    starts decoding. *)
Inductive Layer : Type := Background | Square.

(** Work the host has accepted and not finished: a [FileReader] reading a
    file for [loadImage], or an [Image] whose [src] was just assigned. *)
Inductive Pending : Type :=
| ReadingFile (file : File.t) (cacheKey : string) (callback : Layer)
| LoadingImage (url : string) (layer : Layer).

(** What a [throw] carries: an [Error] built by the script, or a
    [TypeError] raised by the engine. *)
Inductive Exception : Type :=
| Error (message : string)
| TypeError (message : string).

Definition message_of (e : Exception) : string :=
  match e with
  | Error m => m
  | TypeError m => m
  end.

Module World.
(** [canvas] and [ctx] say whether the module variable of that name is
    non-null.  The page has one element with id [canvasPreview];
    [preview] is its surface and [mounted] says whether the element is in
    the document.  [frameCallbacks] counts the callbacks handed to
    [requestAnimationFrame] that have not run yet; [fontFamily] is the
    computed font family of the document element; [console] and
    [downloads] collect what [console.error] printed and what a click on
    a download link saved. *)
Record t : Type := mk {
  state : State.t;
  imageCache : LRU.LRUCache string;
  canvas : bool;
  ctx : bool;
  updateQueue : list (string * Event.t);
  updateScheduled : bool;
  bgCanvas : Canvas.t;
  textCanvas : Canvas.t;
  watermarkCanvas : Canvas.t;
  squareCanvas : Canvas.t;
  preview : Canvas.t;
  mounted : bool;
  frameCallbacks : nat;
  pending : list Pending;
  fontFamily : string;
  console : list string;
  downloads : list (string * Blob.t)
}.

Definition set_state v (w : t) : t :=
  mk v (imageCache w) (canvas w) (ctx w) (updateQueue w) (updateScheduled w)
     (bgCanvas w) (textCanvas w) (watermarkCanvas w) (squareCanvas w)
     (preview w) (mounted w) (frameCallbacks w) (pending w) (fontFamily w)
     (console w) (downloads w).
Definition set_imageCache v (w : t) : t :=
  mk (state w) v (canvas w) (ctx w) (updateQueue w) (updateScheduled w)
     (bgCanvas w) (textCanvas w) (watermarkCanvas w) (squareCanvas w)
     (preview w) (mounted w) (frameCallbacks w) (pending w) (fontFamily w)
     (console w) (downloads w).
Definition set_canvas v (w : t) : t :=
  mk (state w) (imageCache w) v (ctx w) (updateQueue w) (updateScheduled w)
     (bgCanvas w) (textCanvas w) (watermarkCanvas w) (squareCanvas w)
     (preview w) (mounted w) (frameCallbacks w) (pending w) (fontFamily w)
     (console w) (downloads w).
Definition set_ctx v (w : t) : t :=
  mk (state w) (imageCache w) (canvas w) v (updateQueue w) (updateScheduled w)
     (bgCanvas w) (textCanvas w) (watermarkCanvas w) (squareCanvas w)
     (preview w) (mounted w) (frameCallbacks w) (pending w) (fontFamily w)
     (console w) (downloads w).
Definition set_updateQueue v (w : t) : t :=
  mk (state w) (imageCache w) (canvas w) (ctx w) v (updateScheduled w)
     (bgCanvas w) (textCanvas w) (watermarkCanvas w) (squareCanvas w)
     (preview w) (mounted w) (frameCallbacks w) (pending w) (fontFamily w)
     (console w) (downloads w).
Definition set_updateScheduled v (w : t) : t :=
  mk (state w) (imageCache w) (canvas w) (ctx w) (updateQueue w) v
     (bgCanvas w) (textCanvas w) (watermarkCanvas w) (squareCanvas w)
     (preview w) (mounted w) (frameCallbacks w) (pending w) (fontFamily w)
     (console w) (downloads w).
Definition set_bgCanvas v (w : t) : t :=
  mk (state w) (imageCache w) (canvas w) (ctx w) (updateQueue w)
     (updateScheduled w) v (textCanvas w) (watermarkCanvas w)
     (squareCanvas w) (preview w) (mounted w) (frameCallbacks w) (pending w)
     (fontFamily w) (console w) (downloads w).
Definition set_textCanvas v (w : t) : t :=
  mk (state w) (imageCache w) (canvas w) (ctx w) (updateQueue w)
     (updateScheduled w) (bgCanvas w) v (watermarkCanvas w)
     (squareCanvas w) (preview w) (mounted w) (frameCallbacks w) (pending w)
     (fontFamily w) (console w) (downloads w).
Definition set_watermarkCanvas v (w : t) : t :=
  mk (state w) (imageCache w) (canvas w) (ctx w) (updateQueue w)
     (updateScheduled w) (bgCanvas w) (textCanvas w) v
     (squareCanvas w) (preview w) (mounted w) (frameCallbacks w) (pending w)
     (fontFamily w) (console w) (downloads w).
Definition set_squareCanvas v (w : t) : t :=
  mk (state w) (imageCache w) (canvas w) (ctx w) (updateQueue w)
     (updateScheduled w) (bgCanvas w) (textCanvas w) (watermarkCanvas w)
     v (preview w) (mounted w) (frameCallbacks w) (pending w)
     (fontFamily w) (console w) (downloads w).
Definition set_preview v (w : t) : t :=
  mk (state w) (imageCache w) (canvas w) (ctx w) (updateQueue w)
     (updateScheduled w) (bgCanvas w) (textCanvas w) (watermarkCanvas w)
     (squareCanvas w) v (mounted w) (frameCallbacks w) (pending w)
     (fontFamily w) (console w) (downloads w).
Definition set_mounted v (w : t) : t :=
  mk (state w) (imageCache w) (canvas w) (ctx w) (updateQueue w)
     (updateScheduled w) (bgCanvas w) (textCanvas w) (watermarkCanvas w)
     (squareCanvas w) (preview w) v (frameCallbacks w) (pending w)
     (fontFamily w) (console w) (downloads w).
Definition set_frameCallbacks v (w : t) : t :=
  mk (state w) (imageCache w) (canvas w) (ctx w) (updateQueue w)
     (updateScheduled w) (bgCanvas w) (textCanvas w) (watermarkCanvas w)
     (squareCanvas w) (preview w) (mounted w) v (pending w)
     (fontFamily w) (console w) (downloads w).
Definition set_pending v (w : t) : t :=
  mk (state w) (imageCache w) (canvas w) (ctx w) (updateQueue w)
     (updateScheduled w) (bgCanvas w) (textCanvas w) (watermarkCanvas w)
     (squareCanvas w) (preview w) (mounted w) (frameCallbacks w) v
     (fontFamily w) (console w) (downloads w).
Definition set_console v (w : t) : t :=
  mk (state w) (imageCache w) (canvas w) (ctx w) (updateQueue w)
     (updateScheduled w) (bgCanvas w) (textCanvas w) (watermarkCanvas w)
     (squareCanvas w) (preview w) (mounted w) (frameCallbacks w) (pending w)
     (fontFamily w) v (downloads w).
Definition set_downloads v (w : t) : t :=
  mk (state w) (imageCache w) (canvas w) (ctx w) (updateQueue w)
     (updateScheduled w) (bgCanvas w) (textCanvas w) (watermarkCanvas w)
     (squareCanvas w) (preview w) (mounted w) (frameCallbacks w) (pending w)
     (fontFamily w) (console w) v.

(** The module right after it is loaded, on a page whose preview element
    is [preview] and is mounted or not. *)
Definition loaded (envFont pageFont : string) (preview : Canvas.t)
    (mounted : bool) : t :=
  mk (State.initial envFont) imageCache0 false false [] false
     (Canvas.create 1000 500) (Canvas.create 1000 500)
     (Canvas.create 1000 500) (Canvas.create 1000 500)
     preview mounted 0%nat [] pageFont [] [].
End World.

(** ** Running the script: state and exceptions *)

Inductive Outcome (A : Type) : Type :=
| Normal (a : A) (w : World.t)
| Throws (e : Exception) (w : World.t).
Arguments Normal {A} a w.
Arguments Throws {A} e w.

Definition M (A : Type) : Type := World.t -> Outcome A.

Definition ret {A : Type} (a : A) : M A := fun w => Normal a w.

Definition bind {A B : Type} (c : M A) (k : A -> M B) : M B :=
  fun w =>
    match c w with
    | Normal a w' => k a w'
    | Throws e w' => Throws e w'
    end.

Definition throw {A : Type} (e : Exception) : M A := fun w => Throws e w.

Definition read {A : Type} (f : World.t -> A) : M A := fun w => Normal (f w) w.

Definition modify (f : World.t -> World.t) : M unit := fun w => Normal tt (f w).

Declare Scope js_scope.
Delimit Scope js_scope with js.
Notation "x <- c ;; k" := (bind c (fun x => k))
  (at level 61, c at next level, right associativity) : js_scope.
Notation "c ;; k" := (bind c (fun _ => k))
  (at level 61, right associativity) : js_scope.
Local Open Scope js_scope.

Definition when (b : bool) (c : M unit) : M unit := if b then c else ret tt.

(** [for (const x of xs) body(x)] *)
Fixpoint forEach {A : Type} (xs : list A) (body : A -> M unit) : M unit :=
  match xs with
  | [] => ret tt
  | x :: rest => body x ;; forEach rest body
  end.

(** The world an outcome ends in, and whether it ended normally. *)
Definition world_of {A : Type} (o : Outcome A) : World.t :=
  match o with
  | Normal _ w => w
  | Throws _ w => w
  end.

Definition completes {A : Type} (o : Outcome A) : bool :=
  match o with
  | Normal _ _ => true
  | Throws _ _ => false
  end.

(** ** script.js: the compositor *)

Definition bgCtx (op : CanvasOp) : M unit :=
  modify (fun w => World.set_bgCanvas (Canvas.call op (World.bgCanvas w)) w).
Definition textCtx (op : CanvasOp) : M unit :=
  modify (fun w => World.set_textCanvas (Canvas.call op (World.textCanvas w)) w).
Definition watermarkCtx (op : CanvasOp) : M unit :=
  modify (fun w => World.set_watermarkCanvas (Canvas.call op (World.watermarkCanvas w)) w).
Definition squareCtx (op : CanvasOp) : M unit :=
  modify (fun w => World.set_squareCanvas (Canvas.call op (World.squareCanvas w)) w).
(** A call on [ctx], the context of the preview element. *)
Definition ctxCall (op : CanvasOp) : M unit :=
  modify (fun w => World.set_preview (Canvas.call op (World.preview w)) w).

Definition modifyState (f : State.t -> State.t) : M unit :=
  modify (fun w => World.set_state (f (World.state w)) w).

(** [drawImage(layer, 0, 0)] *)
Definition drawLayer (layer : World.t -> Canvas.t) : M unit :=
  source <- read layer ;;
  ctxCall (DrawCanvas (Canvas.ops source) 0 0 None).

Definition composeCanvases : M unit :=
  ctx <- read World.ctx ;;
  if negb ctx then ret tt else
  canvas <- read World.canvas ;;
  if negb canvas then
    throw (TypeError "Cannot read properties of null (reading 'width')")
  else
    preview <- read World.preview ;;
    ctxCall (ClearRect 0 0 (Canvas.width preview) (Canvas.height preview)) ;;
    drawLayer World.bgCanvas ;;
    drawLayer World.textCanvas ;;
    drawLayer World.squareCanvas ;;
    drawLayer World.watermarkCanvas.

(** ** script.js: the four redraws *)

(** [img.src = url] after [img.onload] was set: the host starts decoding. *)
Definition startImage (url : string) (layer : Layer) : M unit :=
  modify (fun w => World.set_pending (World.pending w ++ [LoadingImage url layer]) w).

Definition src_of (o : option string) : string :=
  match o with
  | Some s => s
  | None => EmptyString
  end.

(** The body of [img.onload] in [drawBackground]. *)
Definition drawBackground_onload (img : Image.t) : M unit :=
  bgCanvas <- read World.bgCanvas ;;
  let scaleX := Canvas.width bgCanvas / Image.width img in
  let scaleY := Canvas.height bgCanvas / Image.height img in
  let scale := Qmax scaleX scaleY in
  let width := Image.width img * scale in
  let height := Image.height img * scale in
  let x := (Canvas.width bgCanvas - width) / 2 in
  let y := (Canvas.height bgCanvas - height) / 2 in
  state <- read World.state ;;
  bgCtx (SetFilterBlur (State.bgBlur state)) ;;
  bgCtx (DrawImage img x y width height) ;;
  composeCanvases.

Definition drawBackground : M unit :=
  bgCanvas <- read World.bgCanvas ;;
  bgCtx (ClearRect 0 0 (Canvas.width bgCanvas) (Canvas.height bgCanvas)) ;;
  state <- read World.state ;;
  if truthy_opt (State.bgImageUrl state) then
    startImage (src_of (State.bgImageUrl state)) Background
  else
    bgCtx (SetFillStyle (State.bgColor state)) ;;
    bgCtx (FillRect 0 0 (Canvas.width bgCanvas) (Canvas.height bgCanvas)) ;;
    composeCanvases.

(** Lines 430-444: the size of the scaled icon and its offsets inside the
    inner square of side [size].  The quotients are those of the rationals:
    for an image of height 0 or a square of side 0, where JavaScript's
    division gives [Infinity] or [NaN], they are not the source's, and the
    statements about the fit assume a positive image size and a non-zero
    side. *)
Module Fit.
Record t : Type := mk { scaledWidth : Q; scaledHeight : Q; offsetX : Q; offsetY : Q }.
End Fit.

Definition fitIcon (squareImg : Image.t) (size : Q) : Fit.t :=
  let imgAspectRatio := Image.width squareImg / Image.height squareImg in
  let containerAspectRatio := size / size in
  let scaled :=
    if Qgtb imgAspectRatio containerAspectRatio then (size, size / imgAspectRatio)
    else (size * imgAspectRatio, size) in
  let scaledWidth := fst scaled in
  let scaledHeight := snd scaled in
  let offsetX := (size - scaledWidth) / 2 in
  let offsetY := (size - scaledHeight) / 2 in
  Fit.mk scaledWidth scaledHeight offsetX offsetY.

Definition borderWidth : Q := 20.
Definition radius : Q := 30.

(** The calls on [tempCtx]: the optional plate, the clip, the icon. *)
Definition tempCanvas (state : State.t) (squareImg : Image.t) : list CanvasOp :=
  let totalSize := State.squareSize state in
  let size := totalSize - 2 * borderWidth in
  let plate :=
    if Qgtb (State.iconBgSize state) 0 then
      let bgPadding := State.iconBgSize state in
      [ SetFillStyle (State.iconColor state);
        BeginPath;
        MoveTo (radius + borderWidth - bgPadding) (borderWidth - bgPadding);
        ArcTo (totalSize - borderWidth + bgPadding) (borderWidth - bgPadding)
              (totalSize - borderWidth + bgPadding) (radius + borderWidth - bgPadding)
              radius;
        ArcTo (totalSize - borderWidth + bgPadding) (totalSize - borderWidth + bgPadding)
              (totalSize - radius - borderWidth + bgPadding) (totalSize - borderWidth + bgPadding)
              radius;
        ArcTo (borderWidth - bgPadding) (totalSize - borderWidth + bgPadding)
              (borderWidth - bgPadding) (totalSize - radius - borderWidth + bgPadding)
              radius;
        ArcTo (borderWidth - bgPadding) (borderWidth - bgPadding)
              (radius + borderWidth - bgPadding) (borderWidth - bgPadding)
              radius;
        ClosePath;
        Fill ]
    else [] in
  let clip :=
    [ Save;
      BeginPath;
      MoveTo (radius + borderWidth) borderWidth;
      ArcTo (totalSize - borderWidth) borderWidth (totalSize - borderWidth) (radius + borderWidth) radius;
      ArcTo (totalSize - borderWidth) (totalSize - borderWidth)
            (totalSize - radius - borderWidth) (totalSize - borderWidth) radius;
      ArcTo borderWidth (totalSize - borderWidth) borderWidth (totalSize - radius - borderWidth) radius;
      ArcTo borderWidth borderWidth (radius + borderWidth) borderWidth radius;
      ClosePath;
      Clip ] in
  let fit := fitIcon squareImg size in
  plate ++ clip ++
  [ DrawImage squareImg (borderWidth + Fit.offsetX fit) (borderWidth + Fit.offsetY fit)
              (Fit.scaledWidth fit) (Fit.scaledHeight fit);
    Restore ].

(** The body of [squareImg.onload] in [drawSquareImage]. *)
Definition drawSquareImage_onload (squareImg : Image.t) : M unit :=
  state <- read World.state ;;
  squareCanvas <- read World.squareCanvas ;;
  let totalSize := State.squareSize state in
  let x := (Canvas.width squareCanvas - totalSize) / 2 in
  let y := (Canvas.height squareCanvas - totalSize) / 2 in
  squareCtx Save ;;
  squareCtx (SetShadowColor (State.shadowColor state)) ;;
  squareCtx (SetShadowBlur (State.shadowBlur state)) ;;
  squareCtx (SetShadowOffsetX (State.shadowOffsetX state)) ;;
  squareCtx (SetShadowOffsetY (State.shadowOffsetY state)) ;;
  squareCtx (Translate (x + totalSize / 2) (y + totalSize / 2)) ;;
  squareCtx (Rotate (State.rotation state)) ;;
  squareCtx (Translate (- (x + totalSize / 2)) (- (y + totalSize / 2))) ;;
  squareCtx (DrawCanvas (tempCanvas state squareImg) x y (Some (totalSize, totalSize))) ;;
  squareCtx Restore ;;
  composeCanvases.

Definition drawSquareImage : M unit :=
  squareCanvas <- read World.squareCanvas ;;
  squareCtx (ClearRect 0 0 (Canvas.width squareCanvas) (Canvas.height squareCanvas)) ;;
  state <- read World.state ;;
  if truthy_opt (State.squareImageUrl state) then
    startImage (src_of (State.squareImageUrl state)) Square
  else composeCanvases.

(** [getHtmlFontStyles().fontFamily] *)
Definition getHtmlFontStyles : M string := read World.fontFamily.

(** The font list of [drawText] and [drawWatermark]. *)
Definition fontOf (state : State.t) (fontFamily : string) : string :=
  if truthy (State.selectedFont state)
  then (State.selectedFont state ++ ", " ++ fontFamily)%string
  else fontFamily.

(** [xs.forEach((x, index) => body)] *)
Fixpoint forEachFrom {A : Type} (index : nat) (xs : list A)
    (body : A -> nat -> M unit) : M unit :=
  match xs with
  | [] => ret tt
  | x :: rest => body x index ;; forEachFrom (S index) rest body
  end.

Definition drawText : M unit :=
  textCanvas <- read World.textCanvas ;;
  textCtx (ClearRect 0 0 (Canvas.width textCanvas) (Canvas.height textCanvas)) ;;
  fontFamily <- getHtmlFontStyles ;;
  state <- read World.state ;;
  let font := fontOf state fontFamily in
  textCtx (SetFont "600" (State.textSize state) font) ;;
  textCtx (SetFillStyle (State.textColor state)) ;;
  textCtx (SetTextAlign "center") ;;
  textCtx (SetTextBaseline "middle") ;;
  (if Qgtb (State.text3D state) 0 then
     textCtx (SetShadowColor "rgba(0, 0, 0, .4)") ;;
     textCtx (SetShadowBlur (State.text3D state * (1 # 2))) ;;
     textCtx (SetShadowOffsetX (State.text3D state)) ;;
     textCtx (SetShadowOffsetY (State.text3D state))
   else
     textCtx (SetShadowColor "transparent") ;;
     textCtx (SetShadowBlur 0) ;;
     textCtx (SetShadowOffsetX 0) ;;
     textCtx (SetShadowOffsetY 0)) ;;
  let lines := split_lines (State.text state) in
  let lineHeight := State.textSize state * State.lineHeight state in
  let totalHeight := lineHeight * Qnat (List.length lines) in
  let startY := (Canvas.height textCanvas - totalHeight) / 2 + lineHeight / 2 in
  forEachFrom 0 lines (fun line index =>
    let y := startY + Qnat index * lineHeight in
    textCtx (FillText line (Canvas.width textCanvas / 2) y)) ;;
  composeCanvases.

Definition drawWatermark : M unit :=
  watermarkCanvas <- read World.watermarkCanvas ;;
  watermarkCtx (ClearRect 0 0 (Canvas.width watermarkCanvas) (Canvas.height watermarkCanvas)) ;;
  fontFamily <- getHtmlFontStyles ;;
  state <- read World.state ;;
  let font := fontOf state fontFamily in
  watermarkCtx (SetFont "italic" 14 font) ;;
  watermarkCtx (SetFillStyle (State.watermarkColor state)) ;;
  watermarkCtx (SetTextAlign "right") ;;
  watermarkCtx (FillText (State.watermark state)
                  (Canvas.width watermarkCanvas - 20) (Canvas.height watermarkCanvas - 20)) ;;
  composeCanvases.

(** ** script.js: loading images through the cache *)

Definition imageCache_get (key : string) : M (option string) :=
  fun w =>
    let r := LRU.get (World.imageCache w) key in
    Normal (fst r) (World.set_imageCache (snd r) w).

Definition imageCache_set (key value : string) : M unit :=
  modify (fun w => World.set_imageCache (LRU.set (World.imageCache w) key value) w).

(** The two closures passed to [loadImage]. *)
Definition loadImage_callback (callback : Layer) (url : string) : M unit :=
  match callback with
  | Background => modifyState (State.set_bgImageUrl (Some url)) ;; drawBackground
  | Square => modifyState (State.set_squareImageUrl (Some url)) ;; drawSquareImage
  end.

Definition loadImage (file : File.t) (callback : Layer) : M unit :=
  let cacheKey := (File.name file ++ decimal (File.size file))%string in
  cached <- imageCache_get cacheKey ;;
  if truthy_opt cached then loadImage_callback callback (src_of cached)
  else
    modify (fun w =>
      World.set_pending (World.pending w ++ [ReadingFile file cacheKey callback]) w).

(** The body of [reader.onload] in [loadImage]. *)
Definition loadImage_onload (file : File.t) (cacheKey : string) (callback : Layer) : M unit :=
  imageCache_set cacheKey (File.dataURL file) ;;
  loadImage_callback callback (File.dataURL file).

(** ** script.js: the update functions *)

(** [event.target.files[0]] *)
Definition firstFile (event : Event.t) : option File.t := hd_error (Event.files event).

Definition updateBackgroundImage (event : Event.t) : M unit :=
  match firstFile event with
  | Some bgImage => loadImage bgImage Background
  | None => ret tt
  end.

Definition updateBackgroundColor (event : Event.t) : M unit :=
  modifyState (State.set_bgColor (Event.value event)) ;;
  modifyState (State.set_bgImageUrl None) ;;
  drawBackground.

Definition updateTextColor (event : Event.t) : M unit :=
  modifyState (State.set_textColor (Event.value event)) ;;
  drawText.

Definition updateWatermarkColor (event : Event.t) : M unit :=
  modifyState (State.set_watermarkColor (Event.value event)) ;;
  drawWatermark.

Definition updateSquareImage (event : Event.t) : M unit :=
  match firstFile event with
  | Some squareImage => loadImage squareImage Square
  | None => ret tt
  end.

Definition updateRotation (event : Event.t) : M unit :=
  modifyState (State.set_rotation (Event.number event)) ;;
  drawSquareImage.

(** [a || b] on strings. *)
Definition orElse (a b : string) : string := if truthy a then a else b.

Definition updateText (event : Event.t) : M unit :=
  modifyState (State.set_text (orElse (Event.value event) defaultConfig.text)) ;;
  modifyState (fun s => State.set_hasMultipleLines (includes_newline (State.text s)) s) ;;
  drawText.

Definition updateWatermark (event : Event.t) : M unit :=
  modifyState (State.set_watermark (Event.value event)) ;;
  drawWatermark.

Definition updateTextSize (event : Event.t) : M unit :=
  modifyState (State.set_textSize (Event.number event)) ;;
  drawText.

Definition updateSquareSize (event : Event.t) : M unit :=
  modifyState (State.set_squareSize (Event.number event)) ;;
  drawSquareImage.

Definition updateBgBlur (event : Event.t) : M unit :=
  modifyState (State.set_bgBlur (Event.number event)) ;;
  drawBackground.

Definition updateIconColor (event : Event.t) : M unit :=
  modifyState (State.set_iconColor (Event.value event)) ;;
  drawSquareImage.

Definition updateIconBgSize (event : Event.t) : M unit :=
  modifyState (State.set_iconBgSize (Event.number event)) ;;
  drawSquareImage.

Definition updateShadowColor (event : Event.t) : M unit :=
  modifyState (State.set_shadowColor (Event.value event)) ;;
  drawSquareImage.

Definition updateShadowStrength (event : Event.t) : M unit :=
  strength <- read (fun w => State.shadowStrength (World.state w)) ;;
  modifyState (State.set_shadowBlur (strength * 2)) ;;
  modifyState (State.set_shadowOffsetX 0) ;;
  modifyState (State.set_shadowOffsetY 0) ;;
  drawSquareImage.

Definition updateText3D (event : Event.t) : M unit :=
  modifyState (State.set_text3D (Event.number event)) ;;
  drawText.

Definition updateFont (event : Event.t) : M unit :=
  modifyState (State.set_selectedFont (Event.value event)) ;;
  drawText ;;
  drawWatermark.

(** ** script.js: the batched scheduler *)

(** The table of [updateByType]: the own properties of the object literal.
    Names inherited from [Object.prototype] are not update kinds and are
    not looked up here; for those the source calls whatever the prototype
    holds, which for [__proto__] is not a function. *)
Definition updateFunctions : list (string * (Event.t -> M unit)) :=
  [ ("bg", updateBackgroundImage);
    ("bgColor", updateBackgroundColor);
    ("textColor", updateTextColor);
    ("watermarkColor", updateWatermarkColor);
    ("square", updateSquareImage);
    ("rotation", updateRotation);
    ("text", updateText);
    ("watermark", updateWatermark);
    ("textSize", updateTextSize);
    ("squareSize", updateSquareSize);
    ("bgBlur", updateBgBlur);
    ("iconColor", updateIconColor);
    ("iconBgSize", updateIconBgSize);
    ("font", updateFont);
    ("lineHeight", fun _ => ret tt);
    ("text3D", updateText3D);
    ("shadowColor", updateShadowColor);
    ("shadowStrength", updateShadowStrength) ].

Fixpoint lookup {A : Type} (key : string) (table : list (string * A)) : option A :=
  match table with
  | [] => None
  | (k, a) :: rest => if String.eqb k key then Some a else lookup key rest
  end.

Definition updateByType (type : string) (event : Event.t) : M unit :=
  match lookup type updateFunctions with
  | Some update => update event
  | None => ret tt
  end.

Module NeedsRedraw.
Record t : Type := mk { background : bool; text : bool; watermark : bool; square : bool }.
Definition none : t := mk false false false false.
Definition set_background (n : t) : t := mk true (text n) (watermark n) (square n).
Definition set_text (n : t) : t := mk (background n) true (watermark n) (square n).
Definition set_watermark (n : t) : t := mk (background n) (text n) true (square n).
Definition set_square (n : t) : t := mk (background n) (text n) (watermark n) true.
End NeedsRedraw.

(** [case a: case b: ...] *)
Definition oneOf (type : string) (labels : list string) : bool :=
  existsb (String.eqb type) labels.

(** One turn of the loop of [processBatchUpdates]: the [switch]. *)
Definition processUpdate (needsRedraw : NeedsRedraw.t) (update : string * Event.t)
    : M NeedsRedraw.t :=
  let type := fst update in
  let event := snd update in
  if oneOf type ["bg"] then
    updateBackgroundImage event ;; ret (NeedsRedraw.set_background needsRedraw)
  else if oneOf type ["bgColor"] then
    updateBackgroundColor event ;; ret (NeedsRedraw.set_background needsRedraw)
  else if oneOf type ["text"; "textSize"; "textColor"; "lineHeight"; "text3D"] then
    updateByType type event ;; ret (NeedsRedraw.set_text needsRedraw)
  else if oneOf type ["watermark"; "watermarkColor"] then
    updateByType type event ;; ret (NeedsRedraw.set_watermark needsRedraw)
  else if oneOf type ["square"; "rotation"; "squareSize"; "shadowStrength"; "shadowColor"] then
    updateByType type event ;; ret (NeedsRedraw.set_square needsRedraw)
  else
    updateByType type event ;; ret needsRedraw.

Fixpoint processUpdates (needsRedraw : NeedsRedraw.t) (updates : list (string * Event.t))
    : M NeedsRedraw.t :=
  match updates with
  | [] => ret needsRedraw
  | update :: rest =>
      needsRedraw' <- processUpdate needsRedraw update ;;
      processUpdates needsRedraw' rest
  end.

Definition processBatchUpdates : M unit :=
  updates <- read World.updateQueue ;;
  modify (World.set_updateQueue []) ;;
  modify (World.set_updateScheduled false) ;;
  needsRedraw <- processUpdates NeedsRedraw.none updates ;;
  when (NeedsRedraw.background needsRedraw) drawBackground ;;
  when (NeedsRedraw.text needsRedraw) drawText ;;
  when (NeedsRedraw.watermark needsRedraw) drawWatermark ;;
  when (NeedsRedraw.square needsRedraw) drawSquareImage ;;
  composeCanvases.

(** [requestAnimationFrame(() => { processBatchUpdates(); })].  The
    script's second user of animation frames, [scheduleDraw], is never
    called and is left out. *)
Definition requestAnimationFrame : M unit :=
  modify (fun w => World.set_frameCallbacks (S (World.frameCallbacks w)) w).

(** [updateQueue] is a [Set] of freshly built objects, so every call adds
    an entry. *)
Definition scheduleUpdate (type : string) (event : Event.t) : M unit :=
  modify (fun w => World.set_updateQueue (World.updateQueue w ++ [(type, event)]) w) ;;
  updateScheduled <- read World.updateScheduled ;;
  if negb updateScheduled then
    modify (World.set_updateScheduled true) ;;
    requestAnimationFrame
  else ret tt.

Definition initialize : M unit :=
  mounted <- read World.mounted ;;
  modify (World.set_canvas mounted) ;;
  if negb mounted then
    modify (fun w => World.set_console (World.console w ++ ["Canvas element not found"]) w)
  else
    modify (World.set_ctx true) ;;
    drawBackground ;;
    drawText ;;
    drawWatermark ;;
    drawSquareImage.

Definition cleanup : M unit :=
  modify (fun w => World.set_imageCache (LRU.clear (World.imageCache w)) w) ;;
  modify (World.set_updateQueue []) ;;
  modify (World.set_updateScheduled false).

(** ** The host: animation frames and finished loads *)

(** An exception that leaves a callback is reported on the console and the
    host carries on. *)
Definition dispatch (callback : M unit) : M unit :=
  fun w =>
    match callback w with
    | Normal _ w' => Normal tt w'
    | Throws e w' =>
        Normal tt (World.set_console
                     (World.console w' ++ [("Uncaught " ++ message_of e)%string]) w')
    end.

Fixpoint runFrameCallbacks (n : nat) : M unit :=
  match n with
  | O => ret tt
  | S k => dispatch processBatchUpdates ;; runFrameCallbacks k
  end.

(** The next animation frame: every callback armed so far runs once. *)
Definition animationFrame : M unit :=
  n <- read World.frameCallbacks ;;
  modify (World.set_frameCallbacks 0%nat) ;;
  runFrameCallbacks n.

Fixpoint removeNth {A : Type} (i : nat) (l : list A) : list A :=
  match l, i with
  | [], _ => []
  | _ :: rest, O => rest
  | x :: rest, S j => x :: removeNth j rest
  end.

(** The host finishes the [i]-th piece of pending work.  For an image,
    [width] and [height] are the size it decoded to. *)
Definition finish (i : nat) (width height : Q) : M unit :=
  pending <- read World.pending ;;
  match nth_error pending i with
  | None => ret tt
  | Some work =>
      modify (World.set_pending (removeNth i pending)) ;;
      match work with
      | ReadingFile file cacheKey callback =>
          dispatch (loadImage_onload file cacheKey callback)
      | LoadingImage url Background =>
          dispatch (drawBackground_onload (Image.mk url width height))
      | LoadingImage url Square =>
          dispatch (drawSquareImage_onload (Image.mk url width height))
      end
  end.

(** The host finishes, oldest first, up to [count] of the image loads that
    are pending behind the first [n] pieces of work; [decoded] gives the
    size each picture decodes to. *)
Fixpoint settle (decoded : string -> Q * Q) (n count : nat) : M unit :=
  match count with
  | O => ret tt
  | S k =>
      pending <- read World.pending ;;
      match nth_error pending n with
      | Some (LoadingImage url _) =>
          finish n (fst (decoded url)) (snd (decoded url)) ;;
          settle decoded n k
      | _ => ret tt
      end
  end.

(** ** Exporting *)

(** What the host decides during an export: the clock, whether the encoder
    yields data (and then how many bytes), the object URL it hands out and
    the ISO time stamp. *)
Module Host.
Record t : Type := mk { now : N; encoded : option nat; objectURL : string; isoTime : string }.
End Host.

(** [canvas.toBlob(callback, type, quality)]: the blob passed to the
    callback, [null] when encoding fails. *)
Definition toBlob (c : Canvas.t) (type : string) (quality : Q) (host : Host.t)
    : option Blob.t :=
  match Host.encoded host with
  | Some bytes => Some (Blob.mk type quality (Canvas.ops c) bytes)
  | None => None
  end.

(** [saveWebp()], with the callback of [toBlob] run in place.
    [URL.createObjectURL(null)] raises a [TypeError]. *)
Definition saveWebp (host : Host.t) : M unit :=
  canvas <- read World.canvas ;;
  if negb canvas then ret tt else
  preview <- read World.preview ;;
  match toBlob preview "image/webp" (9 # 10) host with
  | Some blob =>
      let download := ("cover-" ++ decimal (Host.now host) ++ ".webp")%string in
      modify (fun w => World.set_downloads (World.downloads w ++ [(download, blob)]) w)
  | None => throw (TypeError "Failed to execute 'createObjectURL' on 'URL'")
  end.

Module coverAPI.
Record Exported : Type := mk { blob : Blob.t; url : string; size : nat; type : string }.

(** [async export(format = 'webp', quality = 0.9)]: a rejected promise
    is an exception of the awaiting caller. *)
Definition export (format : string) (quality : Q) (host : Host.t) : M Exported :=
  mounted <- read World.mounted ;;
  if negb mounted then throw (Error "Canvas not found") else
  canvas <- read World.preview ;;
  match toBlob canvas ("image/" ++ format)%string quality host with
  | Some blob => ret (mk blob (Host.objectURL host) (Blob.size blob) (Blob.type blob))
  | None => throw (Error "Export failed")
  end.
End coverAPI.

Module apiEndpoints.
Record Response : Type := createResponse {
  success : bool;
  data : option coverAPI.Exported;
  message : string;
  timestamp : string
}.

Record Params : Type := mk { format : option string; quality : option Q }.

Definition default {A : Type} (o : option A) (d : A) : A :=
  match o with
  | Some a => a
  | None => d
  end.

(** [async export(params)]: the [try]/[catch] around [coverAPI.export]. *)
Definition export (params : Params) (host : Host.t) : M Response :=
  fun w =>
    let format := default (format params) "webp" in
    let quality := default (quality params) (9 # 10) in
    match coverAPI.export format quality host w with
    | Normal result w' =>
        Normal (createResponse true (Some result) "导出成功" (Host.isoTime host)) w'
    | Throws error w' =>
        let logged := ("Export Error: " ++ message_of error)%string in
        Normal (createResponse false None (orElse (message_of error) "导出失败")
                  (Host.isoTime host))
               (World.set_console (World.console w' ++ [logged])%list w')
    end.
End apiEndpoints.

(** ** What one redraw leaves behind

    The calls each redraw issues, collected as lists.  The properties below
    first show that the functions above issue exactly these calls. *)

(** Several calls in a row on one context. *)
Definition callAll (calls : list CanvasOp) (c : Canvas.t) : Canvas.t :=
  Canvas.mk (Canvas.width c) (Canvas.height c) (Canvas.ops c ++ calls)%list.

(** The four [drawImage] calls of one compositor pass. *)
Definition stack (bg text square watermark : Canvas.t) : list CanvasOp :=
  [ DrawCanvas (Canvas.ops bg) 0 0 None;
    DrawCanvas (Canvas.ops text) 0 0 None;
    DrawCanvas (Canvas.ops square) 0 0 None;
    DrawCanvas (Canvas.ops watermark) 0 0 None ].

(** The world after one compositor pass. *)
Definition composed (w : World.t) : World.t :=
  World.set_preview
    (callAll
       (ClearRect 0 0 (Canvas.width (World.preview w)) (Canvas.height (World.preview w))
        :: stack (World.bgCanvas w) (World.textCanvas w)
                 (World.squareCanvas w) (World.watermarkCanvas w))
       (World.preview w))
    w.

(** The settings [drawText] makes before it draws the lines. *)
Definition textSettings (state : State.t) (fontFamily : string) : list CanvasOp :=
  [ SetFont "600" (State.textSize state) (fontOf state fontFamily);
    SetFillStyle (State.textColor state);
    SetTextAlign "center";
    SetTextBaseline "middle" ] ++
  (if Qgtb (State.text3D state) 0 then
     [ SetShadowColor "rgba(0, 0, 0, .4)";
       SetShadowBlur (State.text3D state * (1 # 2));
       SetShadowOffsetX (State.text3D state);
       SetShadowOffsetY (State.text3D state) ]
   else
     [ SetShadowColor "transparent";
       SetShadowBlur 0;
       SetShadowOffsetX 0;
       SetShadowOffsetY 0 ])%list.

(** The [fillText] calls for [lines], the first of which has index
    [index]. *)
Fixpoint lineCalls (x startY lineHeight : Q) (index : nat) (lines : list string)
    : list CanvasOp :=
  match lines with
  | [] => []
  | line :: rest =>
      FillText line x (startY + Qnat index * lineHeight)
      :: lineCalls x startY lineHeight (S index) rest
  end.

Definition textCalls (w : World.t) : list CanvasOp :=
  let state := World.state w in
  let textCanvas := World.textCanvas w in
  let lines := split_lines (State.text state) in
  let lineHeight := State.textSize state * State.lineHeight state in
  let totalHeight := lineHeight * Qnat (List.length lines) in
  let startY := (Canvas.height textCanvas - totalHeight) / 2 + lineHeight / 2 in
  (ClearRect 0 0 (Canvas.width textCanvas) (Canvas.height textCanvas)
   :: textSettings state (World.fontFamily w)
   ++ lineCalls (Canvas.width textCanvas / 2) startY lineHeight 0 lines)%list.

Definition watermarkCalls (w : World.t) : list CanvasOp :=
  let state := World.state w in
  let watermarkCanvas := World.watermarkCanvas w in
  [ ClearRect 0 0 (Canvas.width watermarkCanvas) (Canvas.height watermarkCanvas);
    SetFont "italic" 14 (fontOf state (World.fontFamily w));
    SetFillStyle (State.watermarkColor state);
    SetTextAlign "right";
    FillText (State.watermark state)
      (Canvas.width watermarkCanvas - 20) (Canvas.height watermarkCanvas - 20) ].

(** The calls of one icon redraw with a picture, from the wipe in
    [drawSquareImage] to the end of its [onload], [buffer] being the calls
    recorded on the working canvas. *)
Definition squareCalls (w : World.t) (buffer : list CanvasOp) : list CanvasOp :=
  let state := World.state w in
  let squareCanvas := World.squareCanvas w in
  let totalSize := State.squareSize state in
  let x := (Canvas.width squareCanvas - totalSize) / 2 in
  let y := (Canvas.height squareCanvas - totalSize) / 2 in
  [ ClearRect 0 0 (Canvas.width squareCanvas) (Canvas.height squareCanvas);
    Save;
    SetShadowColor (State.shadowColor state);
    SetShadowBlur (State.shadowBlur state);
    SetShadowOffsetX (State.shadowOffsetX state);
    SetShadowOffsetY (State.shadowOffsetY state);
    Translate (x + totalSize / 2) (y + totalSize / 2);
    Rotate (State.rotation state);
    Translate (- (x + totalSize / 2)) (- (y + totalSize / 2));
    DrawCanvas buffer x y (Some (totalSize, totalSize));
    Restore ].

(** The four redraws by name. *)
Inductive Redraw : Type :=
| RedrawBackground
| RedrawText
| RedrawWatermark
| RedrawSquare.

Definition redraw (r : Redraw) : M unit :=
  match r with
  | RedrawBackground => drawBackground
  | RedrawText => drawText
  | RedrawWatermark => drawWatermark
  | RedrawSquare => drawSquareImage
  end.

(** No picture is set, neither for the background nor for the icon: every
    redraw then finishes before it returns. *)
Definition noImage (w : World.t) : Prop :=
  truthy_opt (State.bgImageUrl (World.state w)) = false
  /\ truthy_opt (State.squareImageUrl (World.state w)) = false.

(** The world after the calls of one redraw on its own canvas, before the
    compositor runs, when no picture is set. *)
Definition painted (r : Redraw) (w : World.t) : World.t :=
  match r with
  | RedrawBackground =>
      let bgCanvas := World.bgCanvas w in
      World.set_bgCanvas
        (callAll
           [ ClearRect 0 0 (Canvas.width bgCanvas) (Canvas.height bgCanvas);
             SetFillStyle (State.bgColor (World.state w));
             FillRect 0 0 (Canvas.width bgCanvas) (Canvas.height bgCanvas) ]
           bgCanvas) w
  | RedrawText =>
      World.set_textCanvas (callAll (textCalls w) (World.textCanvas w)) w
  | RedrawWatermark =>
      World.set_watermarkCanvas (callAll (watermarkCalls w) (World.watermarkCanvas w)) w
  | RedrawSquare =>
      let squareCanvas := World.squareCanvas w in
      World.set_squareCanvas
        (callAll
           [ ClearRect 0 0 (Canvas.width squareCanvas) (Canvas.height squareCanvas) ]
           squareCanvas) w
  end.

(** The world after one redraw on a page that holds the preview and its
    context: with a picture set, the background and the icon are wiped and
    their decode is started; every other redraw paints and composites. *)
Definition redrawn (r : Redraw) (w : World.t) : World.t :=
  match r with
  | RedrawBackground =>
      if truthy_opt (State.bgImageUrl (World.state w)) then
        let bgCanvas := World.bgCanvas w in
        World.set_pending
          (World.pending w ++
           [LoadingImage (src_of (State.bgImageUrl (World.state w))) Background])%list
          (World.set_bgCanvas
             (callAll
                [ ClearRect 0 0 (Canvas.width bgCanvas) (Canvas.height bgCanvas) ]
                bgCanvas) w)
      else composed (painted RedrawBackground w)
  | RedrawSquare =>
      if truthy_opt (State.squareImageUrl (World.state w)) then
        let squareCanvas := World.squareCanvas w in
        World.set_pending
          (World.pending w ++
           [LoadingImage (src_of (State.squareImageUrl (World.state w))) Square])%list
          (World.set_squareCanvas
             (callAll
                [ ClearRect 0 0 (Canvas.width squareCanvas) (Canvas.height squareCanvas) ]
                squareCanvas) w)
      else composed (painted RedrawSquare w)
  | RedrawText => composed (painted RedrawText w)
  | RedrawWatermark => composed (painted RedrawWatermark w)
  end.

(** The world after the end of a decode on such a page. *)
Definition decodedInto (layer : Layer) (img : Image.t) (w : World.t) : World.t :=
  match layer with
  | Background =>
      let bgCanvas := World.bgCanvas w in
      let scale := Qmax (Canvas.width bgCanvas / Image.width img)
                        (Canvas.height bgCanvas / Image.height img) in
      let width := Image.width img * scale in
      let height := Image.height img * scale in
      composed
        (World.set_bgCanvas
           (callAll
              [ SetFilterBlur (State.bgBlur (World.state w));
                DrawImage img ((Canvas.width bgCanvas - width) / 2)
                          ((Canvas.height bgCanvas - height) / 2) width height ]
              bgCanvas) w)
  | Square =>
      composed
        (World.set_squareCanvas
           (callAll (tl (squareCalls w (tempCanvas (World.state w) img)))
              (World.squareCanvas w)) w)
  end.

(** ** Notions used in the statements *)

(** The worlds in which the compositor can run: [initialize] has found the
    preview element and acquired its context. *)
Definition ready (w : World.t) : Prop :=
  World.ctx w = true /\ World.canvas w = true.

(** An outcome that tells its caller of a failure. *)
Definition reportsFailure {A : Type} (o : Outcome A) : Prop :=
  exists e w, o = Throws e w.

(** The [fillText] calls among [calls]: text, x, y. *)
Fixpoint textDrawn (calls : list CanvasOp) : list (string * Q * Q) :=
  match calls with
  | [] => []
  | FillText line x y :: rest => (line, x, y) :: textDrawn rest
  | _ :: rest => textDrawn rest
  end.

(** Whether the call issued last drew a decoded image. *)
Definition endsWithImage (calls : list CanvasOp) : bool :=
  match rev calls with
  | DrawImage _ _ _ _ _ :: _ => true
  | _ => false
  end.

(** The vertical position the specification gives for line [i] of
    [lineCount] lines on a surface of height [H]. *)
Definition baseline (H lineHeight : Q) (lineCount i : nat) : Q :=
  (H - lineHeight * Qnat lineCount) / 2 + lineHeight / 2 + Qnat i * lineHeight.

(** The specification's two ways of fitting an image of aspect [ratio]
    into a square of side [size]: to its height, centred horizontally, and
    to its width, centred vertically. *)
Definition fitsHeight (fit : Fit.t) (size ratio : Q) : Prop :=
  Fit.scaledHeight fit == size
  /\ Fit.scaledWidth fit == size * ratio
  /\ Fit.offsetY fit == 0
  /\ Fit.offsetX fit == (size - Fit.scaledWidth fit) / 2.

Definition fitsWidth (fit : Fit.t) (size ratio : Q) : Prop :=
  Fit.scaledWidth fit == size
  /\ Fit.scaledHeight fit == size / ratio
  /\ Fit.offsetX fit == 0
  /\ Fit.offsetY fit == (size - Fit.scaledHeight fit) / 2.

(** ** Sample inputs *)

(** A page whose preview element is mounted, after [initialize]. *)
Definition freshWorld : World.t :=
  World.loaded "HarmonyOS Sans SC" "sans-serif" (Canvas.create 1000 500) true.

Definition sampleWorld : World.t := world_of (initialize freshWorld).

(** The same page once a background picture has been chosen. *)
Definition pictureWorld : World.t :=
  World.set_state
    (State.set_bgImageUrl (Some "data:image/png;base64,AAAA") (World.state sampleWorld))
    sampleWorld.

(** The same page once an icon has been chosen, with an icon box of 240. *)
Definition iconWorld : World.t :=
  World.set_state
    (State.set_squareSize 240
       (State.set_squareImageUrl (Some "data:image/png;base64,BBBB")
          (World.state sampleWorld)))
    sampleWorld.

(** The same page with the three-line title of the specification. *)
Definition threeLines : string :=
  String "A" (String newline (String "B" (String "B" (String newline "CCC")))).

Definition threeLineWorld : World.t :=
  World.set_state
    (State.set_lineHeight 1
       (State.set_textSize 100 (State.set_text threeLines (World.state sampleWorld))))
    sampleWorld.

(** Two colour changes arriving within one frame. *)
Definition burst : list Event.t :=
  [Event.mk "#ff0000" 0 []; Event.mk "#00ff00" 0 []].

(** A page on which the preview element is missing. *)
Definition bareWorld : World.t :=
  World.loaded "HarmonyOS Sans SC" "sans-serif" (Canvas.create 1000 500) false.

Definition sampleHost : Host.t :=
  Host.mk 1700000000000%N (Some 2048%nat) "blob:cover" "2024-01-01T00:00:00.000Z".

(** Two files cached, the first one read again. *)
Definition sampleCalls : list (LRU.Op string) :=
  [LRU.OpSet "a.png10" "data:a"; LRU.OpSet "b.png20" "data:b"; LRU.OpGet "a.png10"].

(** * Properties *)

Local Open Scope nat_scope.
Local Open Scope list_scope.

(** ** Facts about [Map] *)

Section JsMapFacts.
Context {V : Type}.
Implicit Types (m : JsMap.t V) (k key : string) (v : V).

Lemma has_cons m k0 v0 key :
  JsMap.has ((k0, v0) :: m) key = String.eqb k0 key || JsMap.has m key.
Proof. reflexivity. Qed.

Lemma has_app m1 m2 key :
  JsMap.has (m1 ++ m2) key = JsMap.has m1 key || JsMap.has m2 key.
Proof. unfold JsMap.has. apply existsb_app. Qed.

Lemma has_In m key : JsMap.has m key = true <-> In key (JsMap.keys m).
Proof.
  induction m as [|[k0 v0] m IH].
  - simpl. split; [discriminate | tauto].
  - rewrite has_cons, orb_true_iff, IH, String.eqb_eq. simpl. tauto.
Qed.

Lemma has_false_In m key : JsMap.has m key = false <-> ~ In key (JsMap.keys m).
Proof.
  rewrite <- has_In. destruct (JsMap.has m key); split; congruence.
Qed.

Lemma get_has m key : JsMap.has m key = true <-> exists v, JsMap.get m key = Some v.
Proof.
  induction m as [|[k0 v0] m IH].
  - simpl. split; [discriminate | intros [v H]; discriminate].
  - rewrite has_cons. simpl. destruct (String.eqb k0 key); simpl.
    + split; eauto.
    + exact IH.
Qed.

Lemma get_absent m key : JsMap.has m key = false -> JsMap.get m key = None.
Proof.
  intros H. destruct (JsMap.get m key) eqn:E; [|reflexivity].
  assert (JsMap.has m key = true) by (apply get_has; eauto). congruence.
Qed.

Lemma set_absent m key v :
  JsMap.has m key = false -> JsMap.set m key v = m ++ [(key, v)].
Proof.
  induction m as [|[k0 v0] m IH]; intros H.
  - reflexivity.
  - rewrite has_cons in H. apply orb_false_iff in H as [H0 H1].
    simpl. rewrite H0, IH by assumption. reflexivity.
Qed.

Lemma keys_app m1 m2 : JsMap.keys (m1 ++ m2) = JsMap.keys m1 ++ JsMap.keys m2.
Proof. apply map_app. Qed.

Lemma keys_delete m key :
  JsMap.keys (JsMap.delete m key) =
  filter (fun k => negb (String.eqb k key)) (JsMap.keys m).
Proof.
  induction m as [|[k0 v0] m IH]; simpl; [reflexivity|].
  destruct (String.eqb k0 key); simpl; rewrite IH; reflexivity.
Qed.

Lemma has_delete m key key' :
  JsMap.has (JsMap.delete m key) key' = JsMap.has m key' && negb (String.eqb key' key).
Proof.
  induction m as [|[k0 v0] m IH]; [reflexivity|].
  rewrite has_cons. cbn [JsMap.delete filter fst].
  destruct (String.eqb k0 key) eqn:E0; cbn [negb].
  - fold (JsMap.delete m key). rewrite IH. apply String.eqb_eq in E0. subst k0.
    rewrite (String.eqb_sym key key').
    destruct (String.eqb key' key); simpl;
      [rewrite !andb_false_r | rewrite !andb_true_r]; reflexivity.
  - fold (JsMap.delete m key). rewrite has_cons, IH.
    destruct (String.eqb k0 key') eqn:E1; simpl; [|reflexivity].
    apply String.eqb_eq in E1. subst k0. rewrite E0. reflexivity.
Qed.

Lemma has_delete_same m key : JsMap.has (JsMap.delete m key) key = false.
Proof. rewrite has_delete, String.eqb_refl. apply andb_false_r. Qed.

Lemma delete_absent m key : JsMap.has m key = false -> JsMap.delete m key = m.
Proof.
  induction m as [|[k0 v0] m IH]; intros H; [reflexivity|].
  rewrite has_cons in H. apply orb_false_iff in H as [H0 H1].
  cbn [JsMap.delete filter fst]. rewrite H0. cbn [negb].
  fold (JsMap.delete m key). rewrite IH by assumption. reflexivity.
Qed.

Lemma get_delete_other m key key' :
  key' <> key -> JsMap.get (JsMap.delete m key) key' = JsMap.get m key'.
Proof.
  intros Hne. induction m as [|[k0 v0] m IH]; simpl; [reflexivity|].
  destruct (String.eqb k0 key) eqn:E0; simpl.
  - apply String.eqb_eq in E0. subst k0.
    destruct (String.eqb key key') eqn:E1; [|exact IH].
    apply String.eqb_eq in E1. congruence.
  - rewrite IH. reflexivity.
Qed.

Lemma get_app_absent m1 m2 key :
  JsMap.has m1 key = false -> JsMap.get (m1 ++ m2) key = JsMap.get m2 key.
Proof.
  induction m1 as [|[k0 v0] m1 IH]; intros H; [reflexivity|].
  rewrite has_cons in H. apply orb_false_iff in H as [H0 H1].
  simpl. rewrite H0. auto.
Qed.

Lemma get_app_present m1 m2 key v :
  JsMap.get m1 key = Some v -> JsMap.get (m1 ++ m2) key = Some v.
Proof.
  induction m1 as [|[k0 v0] m1 IH]; simpl; [discriminate|].
  destruct (String.eqb k0 key); auto.
Qed.

Lemma NoDup_delete m key :
  NoDup (JsMap.keys m) -> NoDup (JsMap.keys (JsMap.delete m key)).
Proof. intros H. rewrite keys_delete. apply NoDup_filter, H. Qed.

Lemma NoDup_snoc m key v :
  NoDup (JsMap.keys m) -> JsMap.has m key = false ->
  NoDup (JsMap.keys (m ++ [(key, v)])).
Proof.
  intros Hnd Habs. rewrite keys_app. simpl.
  apply NoDup_app; [assumption | repeat constructor; simpl; tauto |].
  intros k Hk [<-|[]]. apply has_false_In in Habs. contradiction.
Qed.

Lemma length_delete_present m key :
  NoDup (JsMap.keys m) -> JsMap.has m key = true ->
  S (JsMap.size (JsMap.delete m key)) = JsMap.size m.
Proof.
  induction m as [|[k0 v0] m IH]; intros Hnd Hhas; [discriminate|].
  inversion Hnd as [|? ? Hnotin Hnd']; subst.
  rewrite has_cons in Hhas. cbn [JsMap.delete filter fst].
  fold (JsMap.delete m key).
  destruct (String.eqb k0 key) eqn:E0; cbn [negb].
  - apply String.eqb_eq in E0. subst k0.
    rewrite delete_absent by (apply has_false_In; assumption). reflexivity.
  - simpl in Hhas. unfold JsMap.size in *. simpl. rewrite IH by assumption.
    reflexivity.
Qed.

Lemma delete_head m k0 v0 :
  NoDup (JsMap.keys ((k0, v0) :: m)) -> JsMap.delete ((k0, v0) :: m) k0 = m.
Proof.
  intros Hnd. inversion Hnd as [|? ? Hnotin _]; subst.
  cbn [JsMap.delete filter fst]. rewrite String.eqb_refl. cbn [negb].
  apply delete_absent, has_false_In, Hnotin.
Qed.
End JsMapFacts.

(** ** Facts about the cache *)

Section LRUFacts.
Context {V : Type}.
Implicit Types (c : LRU.LRUCache V) (key : string) (value : V).

Lemma lru_get_miss c key :
  JsMap.has (LRU.cache c) key = false -> LRU.get c key = (None, c).
Proof. intros H. unfold LRU.get. rewrite H. reflexivity. Qed.

Lemma lru_get_hit c key value :
  JsMap.get (LRU.cache c) key = Some value ->
  LRU.get c key =
  (Some value,
   LRU.with_cache c (JsMap.delete (LRU.cache c) key ++ [(key, value)])).
Proof.
  intros H. unfold LRU.get.
  assert (Hhas : JsMap.has (LRU.cache c) key = true) by (apply get_has; eauto).
  rewrite Hhas, H. rewrite set_absent by apply has_delete_same. reflexivity.
Qed.

Lemma lru_set_present c key value :
  JsMap.has (LRU.cache c) key = true ->
  LRU.set c key value =
  LRU.with_cache c (JsMap.delete (LRU.cache c) key ++ [(key, value)]).
Proof.
  intros H. unfold LRU.set. rewrite H.
  rewrite set_absent by apply has_delete_same. reflexivity.
Qed.

Lemma lru_set_room c key value :
  JsMap.has (LRU.cache c) key = false ->
  JsMap.size (LRU.cache c) < LRU.maxSize c ->
  LRU.set c key value = LRU.with_cache c (LRU.cache c ++ [(key, value)]).
Proof.
  intros H Hlt. unfold LRU.set. rewrite H.
  destruct (Nat.leb_spec (LRU.maxSize c) (JsMap.size (LRU.cache c))); [lia|].
  rewrite set_absent by assumption. reflexivity.
Qed.

Lemma lru_set_evict c key value :
  LRU.wf c -> 1 <= LRU.maxSize c ->
  JsMap.has (LRU.cache c) key = false ->
  LRU.maxSize c <= JsMap.size (LRU.cache c) ->
  exists k0 v0 rest,
    LRU.cache c = (k0, v0) :: rest /\
    LRU.set c key value = LRU.with_cache c (rest ++ [(key, value)]).
Proof.
  intros [Hnd Hsz] Hpos H Hfull. unfold LRU.set. rewrite H.
  destruct (Nat.leb_spec (LRU.maxSize c) (JsMap.size (LRU.cache c))); [|lia].
  destruct (LRU.cache c) as [|[k0 v0] rest] eqn:E.
  - unfold JsMap.size in Hfull. simpl in Hfull. lia.
  - exists k0, v0, rest. split; [reflexivity|].
    cbn [JsMap.firstKey]. rewrite delete_head by assumption.
    rewrite has_cons in H. apply orb_false_iff in H as [_ H].
    rewrite set_absent by assumption. reflexivity.
Qed.

Lemma wf_new n : LRU.wf (@LRU.new V n).
Proof. split; simpl; [constructor | unfold JsMap.size; simpl; lia]. Qed.

Lemma wf_clear c : LRU.wf (LRU.clear c).
Proof. split; simpl; [constructor | unfold JsMap.size; simpl; lia]. Qed.

Lemma wf_refresh c key value :
  LRU.wf c -> JsMap.has (LRU.cache c) key = true ->
  LRU.wf (LRU.with_cache c (JsMap.delete (LRU.cache c) key ++ [(key, value)])).
Proof.
  intros [Hnd Hsz] Hhas. split; simpl.
  - apply NoDup_snoc; [apply NoDup_delete, Hnd | apply has_delete_same].
  - pose proof (length_delete_present _ _ Hnd Hhas) as Hlen.
    unfold JsMap.size in *. rewrite length_app. simpl. lia.
Qed.

Lemma wf_get c key : LRU.wf c -> LRU.wf (snd (LRU.get c key)).
Proof.
  intros Hwf. destruct (JsMap.has (LRU.cache c) key) eqn:Hhas.
  - destruct (proj1 (get_has _ _) Hhas) as [v Hv].
    rewrite (lru_get_hit _ _ _ Hv). simpl. apply wf_refresh; assumption.
  - rewrite lru_get_miss by assumption. exact Hwf.
Qed.

Lemma wf_set c key value :
  1 <= LRU.maxSize c -> LRU.wf c -> LRU.wf (LRU.set c key value).
Proof.
  intros Hpos Hwf. destruct (JsMap.has (LRU.cache c) key) eqn:Hhas.
  - rewrite lru_set_present by assumption. apply wf_refresh; assumption.
  - destruct (Nat.le_gt_cases (LRU.maxSize c) (JsMap.size (LRU.cache c))) as [Hfull|Hroom].
    + destruct (lru_set_evict c key value Hwf Hpos Hhas Hfull)
        as (k0 & v0 & rest & E & ->).
      destruct Hwf as [Hnd Hsz]. rewrite E in *.
      rewrite has_cons in Hhas. apply orb_false_iff in Hhas as [_ Hhas].
      split; simpl.
      * apply NoDup_snoc; [|assumption]. simpl in Hnd. now inversion Hnd.
      * unfold JsMap.size in *. rewrite length_app. simpl in *. lia.
    + rewrite lru_set_room by assumption. destruct Hwf as [Hnd Hsz].
      split; simpl.
      * apply NoDup_snoc; assumption.
      * unfold JsMap.size in *. rewrite length_app. simpl. lia.
Qed.

Lemma maxSize_step c (o : LRU.Op V) : LRU.maxSize (LRU.step c o) = LRU.maxSize c.
Proof.
  destruct o as [key|key value|]; simpl; try reflexivity.
  unfold LRU.get.
  destruct (JsMap.has (LRU.cache c) key); [|reflexivity].
  destruct (JsMap.get (LRU.cache c) key); reflexivity.
Qed.

Lemma wf_step c (o : LRU.Op V) :
  1 <= LRU.maxSize c -> LRU.wf c -> LRU.wf (LRU.step c o).
Proof.
  intros Hpos Hwf. destruct o as [key|key value|]; simpl.
  - apply wf_get, Hwf.
  - apply wf_set; assumption.
  - apply wf_clear.
Qed.

Lemma run_invariant (ops : list (LRU.Op V)) c :
  1 <= LRU.maxSize c -> LRU.wf c ->
  LRU.wf (LRU.run ops c) /\ LRU.maxSize (LRU.run ops c) = LRU.maxSize c.
Proof.
  revert c. induction ops as [|o ops IH]; intros c Hpos Hwf; simpl.
  - split; [assumption | reflexivity].
  - destruct (IH (LRU.step c o)) as [H1 H2].
    + rewrite maxSize_step. assumption.
    + apply wf_step; assumption.
    + split; [exact H1 | rewrite H2; apply maxSize_step].
Qed.

(** After a hit on [key], adding one new key leaves [key] in the cache,
    provided the cache has room for two entries. *)
Lemma promoted_survives c key value key' value' :
  2 <= LRU.maxSize c -> LRU.wf c ->
  JsMap.get (LRU.cache c) key = Some value ->
  JsMap.has (LRU.cache c) key' = false ->
  JsMap.get (LRU.cache (LRU.set (snd (LRU.get c key)) key' value')) key = Some value.
Proof.
  intros Hcap Hwf Hget Habs.
  assert (Hhas : JsMap.has (LRU.cache c) key = true) by (apply get_has; eauto).
  rewrite (lru_get_hit _ _ _ Hget). cbn [snd].
  set (c1 := LRU.with_cache c (JsMap.delete (LRU.cache c) key ++ [(key, value)])).
  assert (Hwf1 : LRU.wf c1) by (apply wf_refresh; assumption).
  assert (Habs1 : JsMap.has (LRU.cache c1) key' = false).
  { simpl. rewrite has_app, has_delete, Habs. simpl. rewrite orb_false_r.
    destruct (String.eqb key key') eqn:E; [|reflexivity].
    apply String.eqb_eq in E. subst key'. congruence. }
  destruct (Nat.le_gt_cases (LRU.maxSize c1) (JsMap.size (LRU.cache c1))) as [Hfull|Hroom].
  - destruct (lru_set_evict c1 key' value' Hwf1 ltac:(simpl; lia) Habs1 Hfull)
      as (k0 & v0 & rest & E & ->).
    simpl in *. 
    destruct (JsMap.delete (LRU.cache c) key) as [|[k1 v1] r] eqn:Ed.
    + unfold JsMap.size in Hfull. simpl in Hfull. lia.
    + simpl in E. injection E as -> -> <-.
      assert (Hk : JsMap.has ((k0, v0) :: r) key = false).
      { rewrite <- Ed. apply has_delete_same. }
      rewrite has_cons in Hk. apply orb_false_iff in Hk as [_ Hk].
      rewrite <- app_assoc. rewrite get_app_absent by assumption.
      simpl. rewrite String.eqb_refl. reflexivity.
  - rewrite lru_set_room by assumption. simpl.
    rewrite <- app_assoc. rewrite get_app_absent by apply has_delete_same.
    simpl. rewrite String.eqb_refl. reflexivity.
Qed.
End LRUFacts.


(** ** The cache holds the keys touched last *)

Section Recency.
Context {V : Type}.
Implicit Types (c : LRU.LRUCache V) (key : string) (order : list string).

Lemma lastn_short {A : Type} n (l : list A) : List.length l <= n -> LRU.lastn n l = l.
Proof.
  intros H. unfold LRU.lastn. replace (List.length l - n) with 0 by lia. reflexivity.
Qed.

Lemma lastn_app_exact {A : Type} n (pre suf : list A) :
  List.length suf = n -> LRU.lastn n (pre ++ suf) = suf.
Proof.
  intros H. unfold LRU.lastn. rewrite length_app.
  replace (List.length pre + List.length suf - n) with (List.length pre) by lia.
  rewrite skipn_app, skipn_all, Nat.sub_diag. reflexivity.
Qed.

(** A list is either no longer than [n], or splits into a front part and
    its last [n] elements. *)
Lemma lastn_split {A : Type} n (l : list A) :
  (List.length l < n /\ LRU.lastn n l = l)
  \/ (exists pre, l = pre ++ LRU.lastn n l /\ List.length (LRU.lastn n l) = n).
Proof.
  destruct (Nat.lt_ge_cases (List.length l) n) as [Hlt|Hge].
  - left. split; [exact Hlt | apply lastn_short; lia].
  - right. exists (firstn (List.length l - n) l). unfold LRU.lastn. split.
    + symmetry. apply firstn_skipn.
    + rewrite length_skipn. lia.
Qed.

Lemma NoDup_app_apart {A : Type} (l1 l2 : list A) (a : A) :
  NoDup (l1 ++ l2) -> In a l1 -> ~ In a l2.
Proof.
  induction l1 as [|x l1 IH]; simpl; intros Hnd Hin; [contradiction|].
  inversion Hnd as [|? ? Hnotin Hnd']; subst. destruct Hin as [->|Hin].
  - intros H2. apply Hnotin, in_or_app. right. exact H2.
  - apply IH; assumption.
Qed.

Lemma filter_other_notin key order :
  ~ In key order -> filter (fun k => negb (String.eqb k key)) order = order.
Proof.
  induction order as [|k order IH]; simpl; intros H; [reflexivity|].
  destruct (String.eqb_spec k key) as [->|Hne]; simpl.
  - exfalso. apply H. left. reflexivity.
  - rewrite IH by tauto. reflexivity.
Qed.

Lemma length_filter_other key order :
  NoDup order -> In key order ->
  S (List.length (filter (fun k => negb (String.eqb k key)) order)) = List.length order.
Proof.
  induction order as [|k order IH]; simpl; intros Hnd Hin; [contradiction|].
  inversion Hnd as [|? ? Hnotin Hnd']; subst.
  destruct (String.eqb_spec k key) as [->|Hne]; simpl.
  - rewrite filter_other_notin by assumption. reflexivity.
  - rewrite IH; [reflexivity | assumption | destruct Hin; [contradiction | assumption]].
Qed.

Lemma NoDup_touch key order : NoDup order -> NoDup (LRU.touch key order).
Proof.
  intros H. unfold LRU.touch. apply NoDup_app.
  - apply NoDup_filter, H.
  - repeat constructor. simpl. tauto.
  - intros k Hk [<-|[]]. apply filter_In in Hk as [_ Hk].
    rewrite String.eqb_refl in Hk. discriminate.
Qed.

Lemma keys_refresh (m : JsMap.t V) key (value : V) :
  JsMap.keys (JsMap.delete m key ++ [(key, value)]) = LRU.touch key (JsMap.keys m).
Proof. rewrite keys_app, keys_delete. reflexivity. Qed.

(** Touching a key that is among the last [n] touched. *)
Lemma lastn_touch_present n key order :
  NoDup order -> In key (LRU.lastn n order) ->
  LRU.lastn n (LRU.touch key order) = LRU.touch key (LRU.lastn n order).
Proof.
  intros Hnd Hin.
  destruct (lastn_split n order) as [[Hlt E]|[pre [E Hlen]]].
  - rewrite E in *. apply lastn_short. unfold LRU.touch. rewrite length_app.
    pose proof (length_filter_other key order Hnd Hin). simpl. lia.
  - set (suf := LRU.lastn n order) in *.
    assert (Hnd' : NoDup (pre ++ suf)) by (rewrite <- E; exact Hnd).
    assert (Hpre : ~ In key pre).
    { intros Hp. exact (NoDup_app_apart _ _ _ Hnd' Hp Hin). }
    unfold LRU.touch. rewrite E, filter_app, (filter_other_notin key pre) by exact Hpre.
    rewrite <- app_assoc. apply lastn_app_exact. rewrite length_app. simpl.
    pose proof (length_filter_other key suf
                  (NoDup_app_remove_l _ _ Hnd') Hin). lia.
Qed.

(** Touching a key that is not among the last [n] touched, when there are
    [n] of them: the oldest of them drops out. *)
Lemma lastn_touch_full n key order :
  1 <= n -> List.length (LRU.lastn n order) = n -> ~ In key (LRU.lastn n order) ->
  LRU.lastn n (LRU.touch key order) = tl (LRU.lastn n order) ++ [key].
Proof.
  intros Hn Hlen Hnotin.
  destruct (lastn_split n order) as [[Hlt E]|[pre [E _]]].
  - rewrite E in Hlen. lia.
  - set (suf := LRU.lastn n order) in *.
    unfold LRU.touch. rewrite E, filter_app, (filter_other_notin key suf) by exact Hnotin.
    destruct suf as [|k0 rest]; [simpl in Hlen; lia|]. simpl tl.
    replace ((filter (fun k => negb (String.eqb k key)) pre ++ k0 :: rest) ++ [key])
      with ((filter (fun k => negb (String.eqb k key)) pre ++ [k0]) ++ (rest ++ [key])).
    + apply lastn_app_exact. rewrite length_app. simpl in *. lia.
    + rewrite <- !app_assoc. reflexivity.
Qed.

(** Touching a new key while fewer than [n] keys were touched at all. *)
Lemma lastn_touch_room n key order :
  List.length order < n -> ~ In key order ->
  LRU.lastn n (LRU.touch key order) = order ++ [key].
Proof.
  intros Hlt Hnotin. unfold LRU.touch. rewrite filter_other_notin by exact Hnotin.
  apply lastn_short. rewrite length_app. simpl. lia.
Qed.

Lemma tracks_wf c order : LRU.tracks c order -> LRU.wf c.
Proof.
  intros [Hnd E]. split.
  - rewrite E. unfold LRU.lastn.
    rewrite <- (firstn_skipn (List.length order - LRU.maxSize c) order) in Hnd.
    exact (NoDup_app_remove_l _ _ Hnd).
  - unfold JsMap.size. rewrite <- (length_map fst). fold (JsMap.keys (LRU.cache c)).
    rewrite E. unfold LRU.lastn. rewrite length_skipn. lia.
Qed.

(** A touch of a cached key, by [get] or by [set]. *)
Lemma tracks_refresh c key value order :
  LRU.tracks c order -> JsMap.has (LRU.cache c) key = true ->
  LRU.tracks
    (LRU.with_cache c (JsMap.delete (LRU.cache c) key ++ [(key, value)]))
    (LRU.touch key order).
Proof.
  intros [Hnd E] Hhas. split; [apply NoDup_touch, Hnd|].
  cbn [LRU.cache LRU.maxSize LRU.with_cache].
  rewrite keys_refresh, E. symmetry. apply lastn_touch_present; [exact Hnd|].
  rewrite <- E. apply has_In, Hhas.
Qed.

Lemma tracks_step c (o : LRU.Op V) order :
  1 <= LRU.maxSize c -> LRU.tracks c order ->
  LRU.tracks (LRU.step c o) (LRU.touched c o order).
Proof.
  intros Hpos Ht. pose proof (tracks_wf c order Ht) as Hwf.
  destruct o as [key|key value|]; cbn [LRU.step LRU.touched].
  - destruct (JsMap.has (LRU.cache c) key) eqn:Hhas.
    + destruct (proj1 (get_has _ _) Hhas) as [v Hv].
      rewrite (lru_get_hit _ _ _ Hv). cbn [snd]. apply tracks_refresh; assumption.
    + rewrite lru_get_miss by assumption. exact Ht.
  - destruct (JsMap.has (LRU.cache c) key) eqn:Hhas.
    + rewrite lru_set_present by assumption. apply tracks_refresh; assumption.
    + destruct Ht as [Hnd E].
      assert (Hnotin : ~ In key (LRU.lastn (LRU.maxSize c) order)).
      { rewrite <- E. apply has_false_In, Hhas. }
      split; [apply NoDup_touch, Hnd|].
      destruct (Nat.le_gt_cases (LRU.maxSize c) (JsMap.size (LRU.cache c))) as [Hfull|Hroom].
      * destruct (lru_set_evict c key value Hwf Hpos Hhas Hfull)
          as (k0 & v0 & rest & Ec & ->).
        cbn [LRU.cache LRU.maxSize LRU.with_cache].
        rewrite keys_app. cbn [JsMap.keys map fst].
        rewrite lastn_touch_full; try assumption.
        -- rewrite <- E, Ec. reflexivity.
        -- rewrite <- E. unfold JsMap.keys. rewrite length_map.
           destruct Hwf as [_ Hsz]. unfold JsMap.size in *. lia.
      * rewrite lru_set_room by assumption.
        cbn [LRU.cache LRU.maxSize LRU.with_cache].
        rewrite keys_app. cbn [JsMap.keys map fst]. fold (JsMap.keys (LRU.cache c)).
        assert (Hlen : List.length (LRU.lastn (LRU.maxSize c) order) < LRU.maxSize c).
        { rewrite <- E. unfold JsMap.keys. rewrite length_map. exact Hroom. }
        destruct (lastn_split (LRU.maxSize c) order) as [[Hlt El]|[pre [_ Hl]]]; [|lia].
        rewrite El in *. rewrite E. symmetry.
        apply lastn_touch_room; assumption.
  - split; [constructor | reflexivity].
Qed.

Lemma tracks_run (ops : list (LRU.Op V)) : forall c order,
  1 <= LRU.maxSize c -> LRU.tracks c order ->
  LRU.tracks (LRU.run ops c) (LRU.recency c order ops).
Proof.
  induction ops as [|o ops IH]; intros c order Hpos Ht; [exact Ht|].
  cbn [LRU.run fold_left LRU.recency]. apply IH.
  - rewrite maxSize_step. exact Hpos.
  - apply tracks_step; assumption.
Qed.

(** Whatever calls were made, the cache holds exactly the [n] keys touched
    last, in the order of their last touch, oldest first. *)
Lemma cache_is_recency n (ops : list (LRU.Op V)) :
  1 <= n ->
  JsMap.keys (LRU.cache (LRU.run ops (LRU.new n))) =
  LRU.lastn n (LRU.recency (LRU.new n) [] ops).
Proof.
  intros Hn.
  destruct (tracks_run ops (LRU.new n) [] Hn) as [_ E].
  - split; [constructor | reflexivity].
  - rewrite E. destruct (run_invariant ops (@LRU.new V n) Hn (wf_new n)) as [_ ->].
    reflexivity.
Qed.
End Recency.
(** C4.  Whatever calls were made on a cache built with capacity [n], at
    least two: it holds at most [n] entries, namely the [n] keys touched
    last, in the order of their last touch; [set] of a new key into a full
    cache removes exactly the first of them, the one touched longest ago,
    and appends the new one, and below capacity removes nothing; [get] of
    a present key returns its value and moves the entry to the young end,
    so that the next [set] of a new key leaves it in the cache; [get] of an
    absent key returns [null] and changes nothing; [clear] empties the
    cache. *)
Theorem C4_lru_cache {V : Type} (n : nat) (ops : list (LRU.Op V)) :
  2 <= n ->
  let c := LRU.run ops (LRU.new n) in
  JsMap.size (LRU.cache c) <= n
  /\ JsMap.keys (LRU.cache c) = LRU.lastn n (LRU.recency (LRU.new n) [] ops)
  /\ (forall key value,
        JsMap.has (LRU.cache c) key = false ->
        JsMap.size (LRU.cache c) = n ->
        exists k0 v0 rest,
          LRU.cache c = (k0, v0) :: rest /\
          LRU.cache (LRU.set c key value) = rest ++ [(key, value)])
  /\ (forall key value,
        JsMap.has (LRU.cache c) key = false ->
        JsMap.size (LRU.cache c) < n ->
        LRU.cache (LRU.set c key value) = LRU.cache c ++ [(key, value)])
  /\ (forall key value,
        JsMap.get (LRU.cache c) key = Some value ->
        fst (LRU.get c key) = Some value
        /\ LRU.cache (snd (LRU.get c key)) =
           JsMap.delete (LRU.cache c) key ++ [(key, value)]
        /\ forall key' value',
             JsMap.has (LRU.cache c) key' = false ->
             JsMap.get (LRU.cache (LRU.set (snd (LRU.get c key)) key' value')) key
             = Some value)
  /\ (forall key, JsMap.has (LRU.cache c) key = false -> LRU.get c key = (None, c))
  /\ LRU.cache (LRU.clear c) = [].
Proof.
  intros Hn c.
  destruct (run_invariant ops (LRU.new n) ltac:(simpl; lia) (wf_new n)) as [Hwf Hmax].
  fold c in Hwf, Hmax. simpl in Hmax.
  repeat split.
  - destruct Hwf as [_ Hsz]. rewrite Hmax in Hsz. exact Hsz.
  - apply cache_is_recency. lia.
  - intros key value Habs Hfull.
    destruct (lru_set_evict c key value Hwf ltac:(lia) Habs ltac:(lia))
      as (k0 & v0 & rest & E & ->).
    exists k0, v0, rest. split; [assumption | reflexivity].
  - intros key value Habs Hroom.
    rewrite lru_set_room by (try assumption; lia). reflexivity.
  - rewrite (lru_get_hit _ _ _ H). reflexivity.
  - rewrite (lru_get_hit _ _ _ H). reflexivity.
  - intros key' value' Habs.
    apply promoted_survives; try assumption. lia.
  - intros key Habs. apply lru_get_miss, Habs.
Qed.

Lemma C4_lru_cache_witness :
  JsMap.size (LRU.cache (LRU.run sampleCalls imageCache0)) <= imageCacheCapacity.
Proof.
  exact (proj1 (C4_lru_cache imageCacheCapacity sampleCalls
                  ltac:(unfold imageCacheCapacity; lia))).
Defined.

(** With room for two entries: a third key evicts the oldest one; reading
    the oldest one first makes the other the victim. *)
Example lru_evicts_oldest :
  JsMap.keys (LRU.cache (LRU.run
    [LRU.OpSet "a" 1; LRU.OpSet "b" 2; LRU.OpSet "c" 3] (LRU.new 2)))
  = ["b"; "c"].
Proof. reflexivity. Qed.

Example lru_read_promotes :
  JsMap.keys (LRU.cache (LRU.run
    [LRU.OpSet "a" 1; LRU.OpSet "b" 2; LRU.OpGet "a"; LRU.OpSet "c" 3] (LRU.new 2)))
  = ["a"; "c"].
Proof. reflexivity. Qed.

(** With room for one entry only, the key just read is the only one there
    is, and the next new key evicts it. *)
Example lru_capacity_one :
  JsMap.keys (LRU.cache (LRU.run
    [LRU.OpSet "a" 1; LRU.OpGet "a"; LRU.OpSet "b" 2] (LRU.new 1)))
  = ["b"].
Proof. reflexivity. Qed.

(** A cache built with capacity zero still keeps the entry set last. *)
Example lru_capacity_zero :
  JsMap.keys (LRU.cache (LRU.run
    [LRU.OpSet "a" 1; LRU.OpSet "b" 2] (LRU.new 0)))
  = ["b"].
Proof. reflexivity. Qed.

(** ** Facts about canvases and the compositor *)

(** Unfolds the plumbing of [M] and the record updates of the world. *)
Ltac js_run :=
  cbv beta iota zeta delta
    [bind read modify ret when throw modifyState bgCtx textCtx watermarkCtx
     squareCtx ctxCall drawLayer startImage getHtmlFontStyles];
  cbn [World.state World.imageCache World.canvas World.ctx World.updateQueue
       World.updateScheduled World.bgCanvas World.textCanvas
       World.watermarkCanvas World.squareCanvas World.preview World.mounted
       World.frameCallbacks World.pending World.fontFamily World.console
       World.downloads
       World.set_state World.set_imageCache World.set_canvas World.set_ctx
       World.set_updateQueue World.set_updateScheduled World.set_bgCanvas
       World.set_textCanvas World.set_watermarkCanvas World.set_squareCanvas
       World.set_preview World.set_frameCallbacks World.set_pending
       World.set_console World.set_downloads
       Canvas.call Canvas.width Canvas.height Canvas.ops negb].

Section CanvasFacts.
Local Open Scope Q_scope.

Lemma call_callAll op calls c :
  Canvas.call op (callAll calls c) = callAll (calls ++ [op]) c.
Proof. unfold Canvas.call, callAll. simpl. rewrite app_assoc. reflexivity. Qed.

Lemma call_one op c : Canvas.call op c = callAll [op] c.
Proof. reflexivity. Qed.

Lemma callAll_callAll l1 l2 c : callAll l2 (callAll l1 c) = callAll (l1 ++ l2) c.
Proof. unfold callAll. simpl. rewrite app_assoc. reflexivity. Qed.

Lemma clears_callAll calls c :
  Canvas.clears (callAll calls c) =
  (Canvas.clears c + List.length (filter Canvas.isClear calls))%nat.
Proof.
  unfold Canvas.clears, callAll. simpl.
  rewrite filter_app, length_app. reflexivity.
Qed.

Lemma sinceClear_app acc l1 l2 :
  Canvas.sinceClear acc (l1 ++ l2) = Canvas.sinceClear (Canvas.sinceClear acc l1) l2.
Proof.
  revert acc. induction l1 as [|op l1 IH]; intros acc; simpl; [reflexivity|].
  destruct (Canvas.isClear op); apply IH.
Qed.

Lemma sinceClear_paint acc l :
  forallb (fun op => negb (Canvas.isClear op)) l = true ->
  Canvas.sinceClear acc l = acc ++ l.
Proof.
  revert acc. induction l as [|op l IH]; intros acc H; simpl.
  - symmetry. apply app_nil_r.
  - simpl in H. apply andb_true_iff in H as [H1 H2].
    destruct (Canvas.isClear op); [discriminate|].
    rewrite IH by assumption. rewrite <- app_assoc. reflexivity.
Qed.

(** After a wipe followed by paint, the paint is what is visible. *)
Lemma visible_after_clear x y w h paint c :
  forallb (fun op => negb (Canvas.isClear op)) paint = true ->
  Canvas.visible (callAll (ClearRect x y w h :: paint) c) = paint.
Proof.
  intros H. unfold Canvas.visible, callAll. simpl.
  rewrite sinceClear_app. simpl. apply (sinceClear_paint []), H.
Qed.

Lemma compose_skip w : World.ctx w = false -> composeCanvases w = Normal tt w.
Proof.
  intros H. unfold composeCanvases, bind, read. rewrite H. reflexivity.
Qed.

Lemma compose_throw w :
  World.ctx w = true -> World.canvas w = false ->
  composeCanvases w =
  Throws (TypeError "Cannot read properties of null (reading 'width')") w.
Proof.
  intros H1 H2. unfold composeCanvases, bind, read. rewrite H1. simpl.
  rewrite H2. reflexivity.
Qed.

Lemma compose_pass w : ready w -> composeCanvases w = Normal tt (composed w).
Proof.
  intros [H1 H2]. unfold composeCanvases. js_run. rewrite H1. js_run.
  rewrite H2. js_run. unfold composed, stack.
  rewrite !call_one, !callAll_callAll. reflexivity.
Qed.
End CanvasFacts.

(** ** The redraws, as lists of calls *)

Section RedrawFacts.
Local Open Scope Q_scope.

Lemma bind_modify {B : Type} f (k : unit -> M B) w :
  bind (modify f) k w = k tt (f w).
Proof. reflexivity. Qed.

Lemma bind_normal {A B : Type} (c : M A) (k : A -> M B) w a w' :
  c w = Normal a w' -> bind c k w = k a w'.
Proof. intros H. unfold bind. rewrite H. reflexivity. Qed.

Lemma bind_throws {A B : Type} (c : M A) (k : A -> M B) w e w' :
  c w = Throws e w' -> bind c k w = Throws e w'.
Proof. intros H. unfold bind. rewrite H. reflexivity. Qed.

Lemma callAll_nil c : callAll [] c = c.
Proof. destruct c. unfold callAll. simpl. rewrite app_nil_r. reflexivity. Qed.

Lemma set_textCanvas_same w : World.set_textCanvas (World.textCanvas w) w = w.
Proof. destruct w. reflexivity. Qed.

Lemma forEach_lines x startY lineHeight lines : forall index w,
  forEachFrom index lines
    (fun line index =>
       textCtx (FillText line x (startY + Qnat index * lineHeight))) w
  = Normal tt
      (World.set_textCanvas
         (callAll (lineCalls x startY lineHeight index lines) (World.textCanvas w)) w).
Proof.
  induction lines as [|line rest IH]; intros index w.
  - simpl. rewrite callAll_nil, set_textCanvas_same. reflexivity.
  - cbn [forEachFrom lineCalls]. unfold textCtx at 1.
    rewrite bind_modify, IH. js_run.
    rewrite call_one, callAll_callAll. reflexivity.
Qed.

Lemma forEach_lines_run x startY lineHeight lines index w :
  forEachFrom index lines
    (fun line index w0 =>
       Normal tt
         (World.set_textCanvas
            (Canvas.call (FillText line x (startY + Qnat index * lineHeight))
               (World.textCanvas w0)) w0)) w
  = Normal tt
      (World.set_textCanvas
         (callAll (lineCalls x startY lineHeight index lines) (World.textCanvas w)) w).
Proof. exact (forEach_lines x startY lineHeight lines index w). Qed.

Lemma drawText_eq w :
  drawText w =
  composeCanvases
    (World.set_textCanvas (callAll (textCalls w) (World.textCanvas w)) w).
Proof.
  unfold drawText, textCalls, textSettings.
  destruct (Qgtb (State.text3D (World.state w)) 0) eqn:E.
  - js_run. rewrite E. js_run.
    rewrite forEach_lines_run. js_run.
    rewrite !call_one, !callAll_callAll. reflexivity.
  - js_run. rewrite E. js_run.
    rewrite forEach_lines_run. js_run.
    rewrite !call_one, !callAll_callAll. reflexivity.
Qed.

Lemma drawWatermark_eq w :
  drawWatermark w =
  composeCanvases
    (World.set_watermarkCanvas
       (callAll (watermarkCalls w) (World.watermarkCanvas w)) w).
Proof.
  unfold drawWatermark, watermarkCalls. js_run.
  rewrite !call_one, !callAll_callAll. reflexivity.
Qed.

Lemma drawBackground_color w :
  truthy_opt (State.bgImageUrl (World.state w)) = false ->
  drawBackground w =
  composeCanvases
    (World.set_bgCanvas
       (callAll
          [ ClearRect 0 0 (Canvas.width (World.bgCanvas w)) (Canvas.height (World.bgCanvas w));
            SetFillStyle (State.bgColor (World.state w));
            FillRect 0 0 (Canvas.width (World.bgCanvas w)) (Canvas.height (World.bgCanvas w)) ]
          (World.bgCanvas w)) w).
Proof.
  intros H. unfold drawBackground. js_run. rewrite H. js_run.
  rewrite !call_one, !callAll_callAll. reflexivity.
Qed.

Lemma drawBackground_image w :
  truthy_opt (State.bgImageUrl (World.state w)) = true ->
  drawBackground w =
  Normal tt
    (World.set_pending
       (World.pending w ++ [LoadingImage (src_of (State.bgImageUrl (World.state w))) Background])
       (World.set_bgCanvas
          (callAll
             [ ClearRect 0 0 (Canvas.width (World.bgCanvas w)) (Canvas.height (World.bgCanvas w)) ]
             (World.bgCanvas w)) w)).
Proof.
  intros H. unfold drawBackground. js_run. rewrite H. js_run. reflexivity.
Qed.

Lemma drawBackground_onload_eq img w :
  drawBackground_onload img w =
  let bgCanvas := World.bgCanvas w in
  let scale := Qmax (Canvas.width bgCanvas / Image.width img)
                    (Canvas.height bgCanvas / Image.height img) in
  let width := Image.width img * scale in
  let height := Image.height img * scale in
  composeCanvases
    (World.set_bgCanvas
       (callAll
          [ SetFilterBlur (State.bgBlur (World.state w));
            DrawImage img ((Canvas.width bgCanvas - width) / 2)
                      ((Canvas.height bgCanvas - height) / 2) width height ]
          bgCanvas) w).
Proof.
  unfold drawBackground_onload. js_run.
  rewrite !call_one, !callAll_callAll. reflexivity.
Qed.

Lemma drawSquareImage_empty w :
  truthy_opt (State.squareImageUrl (World.state w)) = false ->
  drawSquareImage w =
  composeCanvases
    (World.set_squareCanvas
       (callAll
          [ ClearRect 0 0 (Canvas.width (World.squareCanvas w))
                      (Canvas.height (World.squareCanvas w)) ]
          (World.squareCanvas w)) w).
Proof.
  intros H. unfold drawSquareImage. js_run. rewrite H. reflexivity.
Qed.

Lemma drawSquareImage_image w :
  truthy_opt (State.squareImageUrl (World.state w)) = true ->
  drawSquareImage w =
  Normal tt
    (World.set_pending
       (World.pending w ++ [LoadingImage (src_of (State.squareImageUrl (World.state w))) Square])
       (World.set_squareCanvas
          (callAll
             [ ClearRect 0 0 (Canvas.width (World.squareCanvas w))
                         (Canvas.height (World.squareCanvas w)) ]
             (World.squareCanvas w)) w)).
Proof.
  intros H. unfold drawSquareImage. js_run. rewrite H. js_run. reflexivity.
Qed.

Lemma drawSquareImage_onload_eq squareImg w :
  drawSquareImage_onload squareImg w =
  let state := World.state w in
  let squareCanvas := World.squareCanvas w in
  let totalSize := State.squareSize state in
  let x := (Canvas.width squareCanvas - totalSize) / 2 in
  let y := (Canvas.height squareCanvas - totalSize) / 2 in
  composeCanvases
    (World.set_squareCanvas
       (callAll
          [ Save;
            SetShadowColor (State.shadowColor state);
            SetShadowBlur (State.shadowBlur state);
            SetShadowOffsetX (State.shadowOffsetX state);
            SetShadowOffsetY (State.shadowOffsetY state);
            Translate (x + totalSize / 2) (y + totalSize / 2);
            Rotate (State.rotation state);
            Translate (- (x + totalSize / 2)) (- (y + totalSize / 2));
            DrawCanvas (tempCanvas state squareImg) x y (Some (totalSize, totalSize));
            Restore ]
          squareCanvas) w).
Proof.
  unfold drawSquareImage_onload. js_run.
  rewrite !call_one, !callAll_callAll. reflexivity.
Qed.
End RedrawFacts.

(** ** The compositor and the state-only effects of the redraws *)

Section ComposeFacts.
Local Open Scope Q_scope.

Lemma visible_composed w :
  Canvas.visible (World.preview (composed w)) =
  stack (World.bgCanvas w) (World.textCanvas w)
        (World.squareCanvas w) (World.watermarkCanvas w).
Proof. unfold composed. js_run. apply visible_after_clear. reflexivity. Qed.

(** Where a call of the compositor ends, whatever the outcome. *)
Lemma compose_world w :
  world_of (composeCanvases w) =
  if World.ctx w && World.canvas w then composed w else w.
Proof.
  destruct (World.ctx w) eqn:H1.
  - destruct (World.canvas w) eqn:H2.
    + rewrite compose_pass by (split; assumption). reflexivity.
    + rewrite compose_throw by assumption. reflexivity.
  - rewrite compose_skip by assumption. reflexivity.
Qed.

Lemma compose_state w : World.state (world_of (composeCanvases w)) = World.state w.
Proof.
  rewrite compose_world. destruct (World.ctx w && World.canvas w); reflexivity.
Qed.

Lemma drawText_state w : World.state (world_of (drawText w)) = World.state w.
Proof. rewrite drawText_eq, compose_state. reflexivity. Qed.

Lemma drawSquareImage_state w :
  World.state (world_of (drawSquareImage w)) = World.state w.
Proof.
  destruct (truthy_opt (State.squareImageUrl (World.state w))) eqn:E.
  - rewrite drawSquareImage_image by assumption. reflexivity.
  - rewrite drawSquareImage_empty, compose_state by assumption. reflexivity.
Qed.

Lemma drawText_ready w :
  ready w ->
  drawText w =
  Normal tt (composed (World.set_textCanvas
                         (callAll (textCalls w) (World.textCanvas w)) w)).
Proof. intros H. rewrite drawText_eq. apply compose_pass. exact H. Qed.

Lemma drawWatermark_ready w :
  ready w ->
  drawWatermark w =
  Normal tt (composed (World.set_watermarkCanvas
                         (callAll (watermarkCalls w) (World.watermarkCanvas w)) w)).
Proof. intros H. rewrite drawWatermark_eq. apply compose_pass. exact H. Qed.

Lemma redraw_sync r w :
  ready w -> noImage w -> redraw r w = Normal tt (composed (painted r w)).
Proof.
  intros Hw [Hbg Hsq]. destruct r; cbn [redraw painted].
  - rewrite drawBackground_color by exact Hbg. apply compose_pass, Hw.
  - apply drawText_ready, Hw.
  - apply drawWatermark_ready, Hw.
  - rewrite drawSquareImage_empty by exact Hsq. apply compose_pass, Hw.
Qed.

Lemma painted_keeps r w :
  (ready w -> ready (composed (painted r w)))
  /\ (noImage w -> noImage (composed (painted r w))).
Proof. destruct r; split; intros H; exact H. Qed.

(** Two redraws one after the other, on a ready page without pictures. *)
Lemma redraw_twice a b w :
  ready w -> noImage w ->
  (redraw a ;; redraw b) w =
  Normal tt (composed (painted b (composed (painted a w)))).
Proof.
  intros Hw Hn.
  rewrite (bind_normal _ _ _ _ _ (redraw_sync a w Hw Hn)).
  apply redraw_sync; apply painted_keeps; assumption.
Qed.
End ComposeFacts.

(** ** Redraws in either order, with pictures *)

Section Settling.
Lemma nth_error_middle {A : Type} (l1 l2 : list A) (x : A) :
  nth_error (l1 ++ x :: l2) (List.length l1) = Some x.
Proof. induction l1 as [|a l1 IH]; simpl; [reflexivity | exact IH]. Qed.

Lemma removeNth_middle {A : Type} (l1 l2 : list A) (x : A) :
  removeNth (List.length l1) (l1 ++ x :: l2) = l1 ++ l2.
Proof. induction l1 as [|a l1 IH]; simpl; [reflexivity | rewrite IH; reflexivity]. Qed.

Lemma nth_error_end {A : Type} (l : list A) : nth_error l (List.length l) = None.
Proof. induction l as [|a l IH]; simpl; [reflexivity | exact IH]. Qed.

Lemma redraw_eq r w : ready w -> redraw r w = Normal tt (redrawn r w).
Proof.
  intros Hw. destruct r; cbn [redraw redrawn].
  - destruct (truthy_opt (State.bgImageUrl (World.state w))) eqn:E.
    + apply drawBackground_image, E.
    + rewrite drawBackground_color by exact E. apply compose_pass, Hw.
  - apply drawText_ready, Hw.
  - apply drawWatermark_ready, Hw.
  - destruct (truthy_opt (State.squareImageUrl (World.state w))) eqn:E.
    + apply drawSquareImage_image, E.
    + rewrite drawSquareImage_empty by exact E. apply compose_pass, Hw.
Qed.

Lemma redrawn_ready r w : ready w -> ready (redrawn r w).
Proof.
  intros Hw. destruct r; cbn [redrawn];
    try destruct (truthy_opt _); exact Hw.
Qed.

Lemma redrawn_state r w : World.state (redrawn r w) = World.state w.
Proof. destruct r; cbn [redrawn]; try destruct (truthy_opt _); reflexivity. Qed.

Lemma redrawn_fontFamily r w : World.fontFamily (redrawn r w) = World.fontFamily w.
Proof. destruct r; cbn [redrawn]; try destruct (truthy_opt _); reflexivity. Qed.

(** Two redraws one after the other on a ready page, whatever the state. *)
Lemma redraw_pair a b w :
  ready w -> (redraw a ;; redraw b) w = Normal tt (redrawn b (redrawn a w)).
Proof.
  intros Hw. rewrite (bind_normal _ _ _ _ _ (redraw_eq a w Hw)).
  apply redraw_eq, redrawn_ready, Hw.
Qed.

(** The end of a decode on a ready page. *)
Lemma finish_load w rest more url layer iw ih :
  ready w ->
  World.pending w = rest ++ LoadingImage url layer :: more ->
  finish (List.length rest) iw ih w =
  Normal tt (decodedInto layer (Image.mk url iw ih) (World.set_pending (rest ++ more) w)).
Proof.
  intros Hw H. unfold finish. js_run.
  rewrite H, nth_error_middle, removeNth_middle.
  destruct layer; unfold dispatch, decodedInto.
  - rewrite drawBackground_onload_eq. cbv zeta.
    rewrite compose_pass by exact Hw. reflexivity.
  - rewrite drawSquareImage_onload_eq. cbv zeta.
    rewrite compose_pass by exact Hw. reflexivity.
Qed.

Lemma settle_step decoded w rest more url layer k :
  ready w ->
  World.pending w = rest ++ LoadingImage url layer :: more ->
  settle decoded (List.length rest) (S k) w =
  settle decoded (List.length rest) k
    (decodedInto layer (Image.mk url (fst (decoded url)) (snd (decoded url)))
       (World.set_pending (rest ++ more) w)).
Proof.
  intros Hw H. cbn [settle]. unfold bind at 1, read at 1.
  rewrite H, nth_error_middle.
  rewrite (bind_normal _ _ _ _ _ (finish_load w rest more url layer _ _ Hw H)).
  reflexivity.
Qed.

Lemma settle_done decoded w k :
  settle decoded (List.length (World.pending w)) k w = Normal tt w.
Proof.
  destruct k as [|k]; [reflexivity|]. cbn [settle]. unfold bind, read.
  rewrite nth_error_end. reflexivity.
Qed.

Lemma settle_done_at decoded w rest k :
  World.pending w = rest -> settle decoded (List.length rest) k w = Normal tt w.
Proof. intros <-. apply settle_done. Qed.

(** Resolves the tests on the two picture sources in a goal about worlds
    built from [redrawn] and [decodedInto]. *)
Ltac resolve_sources Eb Es :=
  repeat (progress (
    cbv beta iota zeta delta [redrawn composed painted decodedInto];
    cbn [World.state World.imageCache World.canvas World.ctx World.updateQueue
         World.updateScheduled World.bgCanvas World.textCanvas
         World.watermarkCanvas World.squareCanvas World.preview World.mounted
         World.frameCallbacks World.pending World.fontFamily World.console
         World.downloads
         World.set_state World.set_pending World.set_bgCanvas
         World.set_textCanvas World.set_watermarkCanvas World.set_squareCanvas
         World.set_preview];
    rewrite ?Eb, ?Es)).

(** After two redraws in either order the four layers hold the same
    drawings, whatever the state. *)
Lemma layers_either_order a b w :
  let wab := redrawn b (redrawn a w) in
  let wba := redrawn a (redrawn b w) in
  World.bgCanvas wab = World.bgCanvas wba
  /\ World.textCanvas wab = World.textCanvas wba
  /\ World.squareCanvas wab = World.squareCanvas wba
  /\ World.watermarkCanvas wab = World.watermarkCanvas wba.
Proof.
  cbv zeta.
  destruct (truthy_opt (State.bgImageUrl (World.state w))) eqn:Eb;
  destruct (truthy_opt (State.squareImageUrl (World.state w))) eqn:Es;
  destruct a, b; resolve_sources Eb Es; repeat split.
Qed.

Lemma redraw_pair_then {A : Type} a b (k : M A) w :
  ready w -> (redraw a ;; redraw b ;; k) w = k (redrawn b (redrawn a w)).
Proof.
  intros Hw. rewrite (bind_normal _ _ _ _ _ (redraw_eq a w Hw)).
  rewrite (bind_normal _ _ _ _ _ (redraw_eq b _ (redrawn_ready a w Hw))).
  reflexivity.
Qed.

Ltac world_fields :=
  cbn [World.state World.imageCache World.canvas World.ctx World.updateQueue
       World.updateScheduled World.bgCanvas World.textCanvas
       World.watermarkCanvas World.squareCanvas World.preview World.mounted
       World.frameCallbacks World.pending World.fontFamily World.console
       World.downloads
       World.set_state World.set_pending World.set_bgCanvas
       World.set_textCanvas World.set_watermarkCanvas World.set_squareCanvas
       World.set_preview].

(** Evaluates the worlds built from [redrawn] and [decodedInto], innermost
    first, down to their fields. *)
Ltac world_eval :=
  cbv beta iota zeta delta
      [redrawn composed painted decodedInto
       World.state World.imageCache World.canvas World.ctx World.updateQueue
       World.updateScheduled World.bgCanvas World.textCanvas
       World.watermarkCanvas World.squareCanvas World.preview World.mounted
       World.frameCallbacks World.pending World.fontFamily World.console
       World.downloads
       World.set_state World.set_pending World.set_bgCanvas
       World.set_textCanvas World.set_watermarkCanvas World.set_squareCanvas
       World.set_preview].

(** Runs [settle] on a world whose pending loads are written out. *)
Ltac run_settle w :=
  repeat first
    [ rewrite settle_done_at;
      [ | cbv beta iota delta [World.pending]; rewrite ?app_nil_r; reflexivity ]
    | erewrite (settle_step _ _ w);
      [ world_eval
      | split; reflexivity
      | cbv beta iota delta [World.pending]; rewrite <- ?app_assoc; reflexivity ] ];
  cbn [world_of].

(** Two redraws in either order, then the end of the decodes they started:
    the preview shows the same picture. *)
Lemma settled_either_order decoded a b w :
  ready w ->
  Canvas.visible (World.preview (world_of
    ((redraw a ;; redraw b ;; settle decoded (List.length (World.pending w)) 2) w))) =
  Canvas.visible (World.preview (world_of
    ((redraw b ;; redraw a ;; settle decoded (List.length (World.pending w)) 2) w))).
Proof.
  intros Hw. rewrite !redraw_pair_then by exact Hw.
  destruct w as [state imageCache canvas ctx updateQueue updateScheduled
                 bgCanvas textCanvas watermarkCanvas squareCanvas preview
                 mounted frameCallbacks pending fontFamily console downloads].
  destruct Hw as [Hctx Hcanvas]. cbn [World.ctx World.canvas] in Hctx, Hcanvas.
  subst ctx canvas.
  destruct (truthy_opt (State.bgImageUrl state)) eqn:Eb;
  destruct (truthy_opt (State.squareImageUrl state)) eqn:Es;
  destruct a, b; try reflexivity;
  repeat (progress (world_eval; rewrite ?Eb, ?Es));
  run_settle pending;
  cbv beta iota delta [World.preview];
  rewrite !visible_after_clear by reflexivity; reflexivity.
Qed.

(** Once settled, none of the decodes the two redraws started is left. *)
Lemma settled_pending decoded a b w :
  ready w ->
  World.pending (world_of
    ((redraw a ;; redraw b ;; settle decoded (List.length (World.pending w)) 2) w)) =
  World.pending w.
Proof.
  intros Hw. rewrite !redraw_pair_then by exact Hw.
  destruct w as [state imageCache canvas ctx updateQueue updateScheduled
                 bgCanvas textCanvas watermarkCanvas squareCanvas preview
                 mounted frameCallbacks pending fontFamily console downloads].
  destruct Hw as [Hctx Hcanvas]. cbn [World.ctx World.canvas] in Hctx, Hcanvas.
  subst ctx canvas.
  destruct (truthy_opt (State.bgImageUrl state)) eqn:Eb;
  destruct (truthy_opt (State.squareImageUrl state)) eqn:Es;
  destruct a, b;
  repeat (progress (world_eval; rewrite ?Eb, ?Es));
  run_settle pending;
  cbv beta iota delta [World.pending]; rewrite ?app_nil_r; reflexivity.
Qed.

(** Two redraws in either order, then one compositor pass. *)
Lemma composed_either_order a b w :
  ready w ->
  Canvas.visible (World.preview (world_of
    ((redraw a ;; redraw b ;; composeCanvases) w))) =
  Canvas.visible (World.preview (world_of
    ((redraw b ;; redraw a ;; composeCanvases) w))).
Proof.
  intros Hw. rewrite !redraw_pair_then by exact Hw.
  rewrite !compose_pass by (apply redrawn_ready, redrawn_ready, Hw).
  cbn [world_of]. rewrite !visible_composed.
  destruct (layers_either_order a b w) as (Hbg & Htext & Hsq & Hwm).
  rewrite Hbg, Htext, Hsq, Hwm. reflexivity.
Qed.

End Settling.

(** C8.  [composeCanvases] does nothing while [ctx] is null.  Once the
    preview element and its context are held, it wipes the preview and
    draws the background, text, icon and watermark canvases over it in that
    order: what is visible afterwards is exactly that stack, whatever the
    preview showed before and whatever the render state is, so two worlds
    whose four layers hold the same drawings compose to the same picture.
    The order of the layer redraws does not matter, for any render state:
    two redraws issued in either order leave the same drawings on the four
    layers, so the compositor pass that follows them gives the same
    picture; and once the host has finished the decodes the two redraws
    started, in [drawBackground]'s and [drawSquareImage]'s [onload], none
    of them is left pending and the preview shows the same picture in
    either order.  While no picture is set, the two orders agree as soon as
    the redraws return. *)
Theorem C8_compose_fixed_order :
  (forall w, World.ctx w = false -> composeCanvases w = Normal tt w)
  /\ (forall w, ready w ->
        composeCanvases w = Normal tt (composed w)
        /\ Canvas.ops (World.preview (composed w)) =
           Canvas.ops (World.preview w) ++
           [ ClearRect 0 0 (Canvas.width (World.preview w)) (Canvas.height (World.preview w));
             DrawCanvas (Canvas.ops (World.bgCanvas w)) 0 0 None;
             DrawCanvas (Canvas.ops (World.textCanvas w)) 0 0 None;
             DrawCanvas (Canvas.ops (World.squareCanvas w)) 0 0 None;
             DrawCanvas (Canvas.ops (World.watermarkCanvas w)) 0 0 None ]
        /\ Canvas.visible (World.preview (composed w)) =
           stack (World.bgCanvas w) (World.textCanvas w)
                 (World.squareCanvas w) (World.watermarkCanvas w))
  /\ (forall w1 w2, ready w1 -> ready w2 ->
        Canvas.ops (World.bgCanvas w1) = Canvas.ops (World.bgCanvas w2) ->
        Canvas.ops (World.textCanvas w1) = Canvas.ops (World.textCanvas w2) ->
        Canvas.ops (World.squareCanvas w1) = Canvas.ops (World.squareCanvas w2) ->
        Canvas.ops (World.watermarkCanvas w1) = Canvas.ops (World.watermarkCanvas w2) ->
        Canvas.visible (World.preview (world_of (composeCanvases w1))) =
        Canvas.visible (World.preview (world_of (composeCanvases w2))))
  /\ (forall w a b, ready w -> noImage w ->
        Canvas.visible (World.preview (world_of ((redraw a ;; redraw b) w))) =
        Canvas.visible (World.preview (world_of ((redraw b ;; redraw a) w))))
  /\ (forall w a b, ready w ->
        let wab := world_of ((redraw a ;; redraw b) w) in
        let wba := world_of ((redraw b ;; redraw a) w) in
        World.bgCanvas wab = World.bgCanvas wba
        /\ World.textCanvas wab = World.textCanvas wba
        /\ World.squareCanvas wab = World.squareCanvas wba
        /\ World.watermarkCanvas wab = World.watermarkCanvas wba
        /\ Canvas.visible (World.preview (world_of
             ((redraw a ;; redraw b ;; composeCanvases) w))) =
           Canvas.visible (World.preview (world_of
             ((redraw b ;; redraw a ;; composeCanvases) w))))
  /\ (forall decoded w a b, ready w ->
        let n := List.length (World.pending w) in
        let wab := world_of ((redraw a ;; redraw b ;; settle decoded n 2) w) in
        let wba := world_of ((redraw b ;; redraw a ;; settle decoded n 2) w) in
        World.pending wab = World.pending w
        /\ World.pending wba = World.pending w
        /\ Canvas.visible (World.preview wab) = Canvas.visible (World.preview wba)).
Proof.
  split; [exact compose_skip|].
  split; [|split; [|split; [|split]]].
  - intros w Hw. split; [apply compose_pass, Hw|].
    split; [reflexivity | apply visible_composed].
  - intros w1 w2 H1 H2 Hbg Htext Hsq Hwm.
    rewrite !compose_pass by assumption. cbn [world_of].
    rewrite !visible_composed. unfold stack. congruence.
  - intros w a b Hw Hn.
    rewrite !redraw_twice by assumption.
    cbn [world_of]. rewrite !visible_composed.
    destruct a, b; reflexivity.
  - intros w a b Hw. cbv zeta.
    rewrite !redraw_pair by exact Hw. cbn [world_of].
    destruct (layers_either_order a b w) as (Hbg & Htext & Hsq & Hwm).
    repeat (split; [assumption|]).
    apply composed_either_order, Hw.
  - intros decoded w a b Hw. cbv zeta.
    split; [apply settled_pending, Hw|].
    split; [apply settled_pending, Hw|].
    apply settled_either_order, Hw.
Qed.

Lemma C8_compose_fixed_order_witness :
  ready sampleWorld
  /\ composeCanvases sampleWorld = Normal tt (composed sampleWorld)
  /\ ready pictureWorld
  /\ Canvas.visible (World.preview (world_of
       ((redraw RedrawBackground ;; redraw RedrawText ;;
         settle (fun _ => (400%Q, 200%Q)) (List.length (World.pending pictureWorld)) 2)
          pictureWorld))) =
     Canvas.visible (World.preview (world_of
       ((redraw RedrawText ;; redraw RedrawBackground ;;
         settle (fun _ => (400%Q, 200%Q)) (List.length (World.pending pictureWorld)) 2)
          pictureWorld))).
Proof.
  split; [split; reflexivity|].
  split.
  - exact (proj1 (proj1 (proj2 C8_compose_fixed_order) sampleWorld
                    (conj eq_refl eq_refl))).
  - split; [split; reflexivity|].
    exact (proj2 (proj2
             (proj2 (proj2 (proj2 (proj2 (proj2 C8_compose_fixed_order))))
                (fun _ => (400%Q, 200%Q)) pictureWorld RedrawBackground RedrawText
                (conj eq_refl eq_refl)))).
Defined.

(** Why the statement asks for both module variables: when the preview
    element has left the document and [initialize] runs again, [canvas]
    becomes null while [ctx] keeps the old context, and the compositor
    fails on [canvas.width]. *)
Example compose_after_failed_initialize :
  let w := world_of (initialize (World.set_mounted false sampleWorld)) in
  World.ctx w = true
  /\ World.canvas w = false
  /\ composeCanvases w =
     Throws (TypeError "Cannot read properties of null (reading 'width')") w.
Proof. cbv zeta. repeat split. Qed.

(** While a decode is outstanding the preview can lag behind the layers:
    with a background picture chosen, redrawing the background and then
    the text shows the wiped background, while the other order still shows
    the old one until the picture has been decoded. *)
Example preview_lags_until_decoded :
  Canvas.visible (World.preview (world_of
    ((redraw RedrawBackground ;; redraw RedrawText) pictureWorld))) <>
  Canvas.visible (World.preview (world_of
    ((redraw RedrawText ;; redraw RedrawBackground) pictureWorld))).
Proof. vm_compute. discriminate. Qed.

(** ** The update functions *)

Lemma includes_newline_spec s :
  includes_newline s = true <->
  exists before after, s = (before ++ String newline after)%string.
Proof.
  induction s as [|c s IH]; simpl.
  - split; [discriminate|]. intros ([|? ?] & after & H); discriminate.
  - rewrite orb_true_iff, IH. split.
    + intros [H | (before & after & ->)].
      * apply Ascii.eqb_eq in H. subst c. exists EmptyString, s. reflexivity.
      * exists (String c before), after. reflexivity.
    + intros ([|c' before] & after & H); simpl in H; injection H as -> ->.
      * left. apply Ascii.eqb_refl.
      * right. exists before, after. reflexivity.
Qed.

Lemma orElse_truthy a b : truthy b = true -> truthy (orElse a b) = true.
Proof. intros H. unfold orElse. destruct (truthy a) eqn:E; assumption. Qed.

(** C9.  After [updateText], [state.text] is the value of the event when
    that value is not empty and the default title otherwise, so it is never
    empty; [state.hasMultipleLines] says whether that text contains a line
    feed.  This holds however the redraw that follows ends. *)
Theorem C9_updateText_never_empty (event : Event.t) (w : World.t) :
  let s' := World.state (world_of (updateText event w)) in
  (Event.value event <> EmptyString -> State.text s' = Event.value event)
  /\ (Event.value event = EmptyString -> State.text s' = defaultConfig.text)
  /\ State.text s' <> EmptyString
  /\ State.hasMultipleLines s' = includes_newline (State.text s')
  /\ (State.hasMultipleLines s' = true <->
      exists before after, State.text s' = (before ++ String newline after)%string).
Proof.
  intros s'.
  assert (Hs : s' =
    State.set_hasMultipleLines
      (includes_newline (orElse (Event.value event) defaultConfig.text))
      (State.set_text (orElse (Event.value event) defaultConfig.text) (World.state w))).
  { unfold s', updateText. js_run. rewrite drawText_state. reflexivity. }
  rewrite Hs. cbn [State.text State.hasMultipleLines State.set_text State.set_hasMultipleLines].
  repeat split.
  - intros Hne. unfold orElse. destruct (Event.value event); [congruence | reflexivity].
  - intros ->. reflexivity.
  - intros Hempty.
    pose proof (orElse_truthy (Event.value event) defaultConfig.text eq_refl) as Ht.
    rewrite Hempty in Ht. discriminate.
  - apply includes_newline_spec.
  - apply includes_newline_spec.
Qed.

Lemma C9_updateText_never_empty_witness :
  State.text (World.state (world_of
    (updateText (Event.mk "Hello" 0 []) sampleWorld))) = "Hello".
Proof.
  apply (C9_updateText_never_empty (Event.mk "Hello" 0 []) sampleWorld).
  discriminate.
Defined.

(** C10.  [updateShadowStrength] sets [shadowBlur] to twice the current
    [shadowStrength] and both shadow offsets to zero; [shadowStrength] and
    every other field keep their values, and the event is never looked at:
    two calls with different events are the same call. *)
Theorem C10_updateShadowStrength_frame (event : Event.t) (w : World.t) :
  let s := World.state w in
  let s' := World.state (world_of (updateShadowStrength event w)) in
  State.shadowBlur s' = (State.shadowStrength s * 2)%Q
  /\ (State.shadowBlur s' == 2 * State.shadowStrength s)%Q
  /\ State.shadowOffsetX s' = 0%Q
  /\ State.shadowOffsetY s' = 0%Q
  /\ State.shadowStrength s' = State.shadowStrength s
  /\ s' = State.set_shadowOffsetY 0
            (State.set_shadowOffsetX 0
               (State.set_shadowBlur (State.shadowStrength s * 2) s))
  /\ (State.bgImageUrl s' = State.bgImageUrl s
      /\ State.squareImageUrl s' = State.squareImageUrl s
      /\ State.bgColor s' = State.bgColor s
      /\ State.textColor s' = State.textColor s
      /\ State.watermarkColor s' = State.watermarkColor s
      /\ State.iconColor s' = State.iconColor s
      /\ State.rotation s' = State.rotation s
      /\ State.shadowColor s' = State.shadowColor s
      /\ State.watermark s' = State.watermark s
      /\ State.textSize s' = State.textSize s
      /\ State.lineHeight s' = State.lineHeight s
      /\ State.text3D s' = State.text3D s
      /\ State.squareSize s' = State.squareSize s
      /\ State.text s' = State.text s
      /\ State.bgBlur s' = State.bgBlur s
      /\ State.iconBgSize s' = State.iconBgSize s
      /\ State.selectedFont s' = State.selectedFont s
      /\ State.isFontMenuOpen s' = State.isFontMenuOpen s
      /\ State.hasMultipleLines s' = State.hasMultipleLines s)
  /\ (forall event' : Event.t,
        updateShadowStrength event' w = updateShadowStrength event w).
Proof.
  intros s s'.
  assert (Hs : s' = State.set_shadowOffsetY 0
                      (State.set_shadowOffsetX 0
                         (State.set_shadowBlur (State.shadowStrength s * 2) s))).
  { unfold s', updateShadowStrength. js_run. rewrite drawSquareImage_state. reflexivity. }
  rewrite Hs. repeat split. cbn. ring.
Qed.

(** ** Exporting without a preview element *)

(** C3, as amended.  [coverAPI.export] rejects with the error
    [Canvas not found] when the document has no preview element and
    changes nothing; [apiEndpoints.export] logs that rejection and turns it
    into a response that says so.  [saveWebp] returns at its guard when the
    module holds no canvas: nothing is saved and nothing is raised. *)
Theorem C3_export_without_canvas (w : World.t) (host : Host.t) :
  (World.mounted w = false ->
     (forall format quality,
        coverAPI.export format quality host w = Throws (Error "Canvas not found") w)
     /\ (forall params,
           apiEndpoints.export params host w =
           Normal (apiEndpoints.createResponse false None "Canvas not found"
                     (Host.isoTime host))
                  (World.set_console
                     (World.console w ++ ["Export Error: Canvas not found"]) w)))
  /\ (World.canvas w = false -> saveWebp host w = Normal tt w).
Proof.
  split.
  - intros H. split.
    + intros format quality. unfold coverAPI.export. js_run. rewrite H. reflexivity.
    + intros params. unfold apiEndpoints.export, coverAPI.export. js_run.
      rewrite H. reflexivity.
  - intros H. unfold saveWebp. js_run. rewrite H. reflexivity.
Qed.

Lemma C3_export_without_canvas_witness :
  coverAPI.export "webp" (9 # 10) sampleHost bareWorld =
  Throws (Error "Canvas not found") bareWorld.
Proof.
  apply (proj1 (C3_export_without_canvas bareWorld sampleHost)).
  reflexivity.
Defined.

(** The claim as the specification words it fails for [saveWebp]: on a page
    without the preview element, after [initialize] has logged its error,
    [saveWebp] ends normally, raises nothing, saves nothing and leaves the
    world as it was. *)
Lemma C3_saveWebp_is_silent :
  let w := world_of (initialize bareWorld) in
  World.canvas w = false
  /\ World.mounted w = false
  /\ saveWebp sampleHost w = Normal tt w
  /\ ~ reportsFailure (saveWebp sampleHost w).
Proof.
  cbv zeta. repeat split.
  intros [e [w' H]]. discriminate H.
Qed.

(** ** Arithmetic of the geometry *)

Section Geometry.
Local Open Scope Q_scope.

Lemma Qgtb_true a b : Qgtb a b = true <-> b < a.
Proof.
  unfold Qgtb. rewrite negb_true_iff. split.
  - intros H. apply Qnot_le_lt. intros Hle.
    apply Qle_bool_iff in Hle. congruence.
  - intros H. destruct (Qle_bool a b) eqn:E; [|reflexivity].
    apply Qle_bool_iff in E. exfalso. exact (Qlt_not_le _ _ H E).
Qed.

Lemma Qgtb_false a b : Qgtb a b = false <-> a <= b.
Proof.
  unfold Qgtb. rewrite negb_false_iff. apply Qle_bool_iff.
Qed.

Lemma Qpos_nonzero a : 0 < a -> ~ a == 0.
Proof. intros H E. rewrite E in H. exact (Qlt_irrefl _ H). Qed.

Lemma Qnat_S n : Qnat (S n) == Qnat n + 1.
Proof.
  unfold Qnat. rewrite Nat2Z.inj_succ, <- Z.add_1_r, inject_Z_plus. reflexivity.
Qed.

Lemma fitIcon_wide squareImg size :
  ~ size == 0 ->
  1 < Image.width squareImg / Image.height squareImg ->
  fitIcon squareImg size =
  Fit.mk size (size / (Image.width squareImg / Image.height squareImg))
         ((size - size) / 2)
         ((size - size / (Image.width squareImg / Image.height squareImg)) / 2).
Proof.
  intros Hs Hr. unfold fitIcon.
  assert (E : Qgtb (Image.width squareImg / Image.height squareImg) (size / size) = true).
  { apply Qgtb_true. setoid_replace (size / size) with 1 by (field; exact Hs). exact Hr. }
  rewrite E. reflexivity.
Qed.

Lemma fitIcon_tall squareImg size :
  ~ size == 0 ->
  Image.width squareImg / Image.height squareImg <= 1 ->
  fitIcon squareImg size =
  Fit.mk (size * (Image.width squareImg / Image.height squareImg)) size
         ((size - size * (Image.width squareImg / Image.height squareImg)) / 2)
         ((size - size) / 2).
Proof.
  intros Hs Hr. unfold fitIcon.
  assert (E : Qgtb (Image.width squareImg / Image.height squareImg) (size / size) = false).
  { apply Qgtb_false. setoid_replace (size / size) with 1 by (field; exact Hs). exact Hr. }
  rewrite E. reflexivity.
Qed.

Lemma baseline_step H lineHeight lineCount i :
  baseline H lineHeight lineCount (S i) - baseline H lineHeight lineCount i == lineHeight.
Proof. unfold baseline. rewrite Qnat_S. ring. Qed.

(** The block of [lineCount] lines leaves the same margin above its first
    line and below its last one. *)
Lemma baseline_centred H lineHeight lineCount :
  baseline H lineHeight (S lineCount) 0 - lineHeight / 2 ==
  H - (baseline H lineHeight (S lineCount) lineCount + lineHeight / 2).
Proof. unfold baseline. rewrite Qnat_S. unfold Qnat at 2. simpl inject_Z. field. Qed.
End Geometry.

(** ** The background *)

Section HostFacts.
Lemma nth_error_snoc {A : Type} (l : list A) (x : A) :
  nth_error (l ++ [x]) (List.length l) = Some x.
Proof. induction l as [|a l IH]; simpl; [reflexivity | exact IH]. Qed.

Lemma removeNth_snoc {A : Type} (l : list A) (x : A) :
  removeNth (List.length l) (l ++ [x]) = l.
Proof. induction l as [|a l IH]; simpl; [reflexivity | rewrite IH; reflexivity]. Qed.

Lemma compose_bgCanvas w :
  World.bgCanvas (world_of (composeCanvases w)) = World.bgCanvas w.
Proof.
  rewrite compose_world. destruct (World.ctx w && World.canvas w); reflexivity.
Qed.

Lemma compose_textCanvas w :
  World.textCanvas (world_of (composeCanvases w)) = World.textCanvas w.
Proof.
  rewrite compose_world. destruct (World.ctx w && World.canvas w); reflexivity.
Qed.

Lemma compose_pending w :
  World.pending (world_of (composeCanvases w)) = World.pending w.
Proof.
  rewrite compose_world. destruct (World.ctx w && World.canvas w); reflexivity.
Qed.

Lemma dispatch_bgCanvas callback w :
  World.bgCanvas (world_of (dispatch callback w)) =
  World.bgCanvas (world_of (callback w)).
Proof. unfold dispatch. destruct (callback w); reflexivity. Qed.

(** Finishing the load that was started last. *)
Lemma finish_last_background w url rest iw ih :
  World.pending w = rest ++ [LoadingImage url Background] ->
  finish (List.length rest) iw ih w =
  dispatch (drawBackground_onload (Image.mk url iw ih)) (World.set_pending rest w).
Proof.
  intros H. unfold finish. js_run. rewrite H, nth_error_snoc, removeNth_snoc.
  reflexivity.
Qed.
End HostFacts.

(** C5.  With an image source set, [drawBackground] wipes the background
    canvas, starts the decode and fills nothing; when that decode finishes
    with an image of size [iw] by [ih], the image is drawn under a blur of
    [bgBlur], scaled by the larger of width over [iw] and height over [ih]
    and centred, so that it covers the canvas.  With no image source the
    canvas is wiped and filled whole with [bgColor].  [updateBackgroundColor]
    clears the image source, so its redraw takes the colour path. *)
Theorem C5_drawBackground (w : World.t) :
  let state := World.state w in
  let bg := World.bgCanvas w in
  let W := Canvas.width bg in
  let H := Canvas.height bg in
  (forall url,
     State.bgImageUrl state = Some url -> truthy url = true ->
     let w1 := world_of (drawBackground w) in
     drawBackground w = Normal tt w1
     /\ Canvas.ops (World.bgCanvas w1) = Canvas.ops bg ++ [ClearRect 0 0 W H]
     /\ World.pending w1 = World.pending w ++ [LoadingImage url Background]
     /\ World.preview w1 = World.preview w
     /\ forall iw ih,
          let img := Image.mk url iw ih in
          let scale := Qmax (W / iw) (H / ih) in
          let w2 := world_of (finish (List.length (World.pending w)) iw ih w1) in
          Canvas.ops (World.bgCanvas w2) =
          Canvas.ops bg ++
          [ ClearRect 0 0 W H;
            SetFilterBlur (State.bgBlur state);
            DrawImage img ((W - iw * scale) / 2) ((H - ih * scale) / 2)
                      (iw * scale) (ih * scale) ]
          /\ ((W - iw * scale) / 2 + iw * scale / 2 == W / 2)%Q
          /\ ((H - ih * scale) / 2 + ih * scale / 2 == H / 2)%Q
          /\ ((0 < iw)%Q -> (0 < ih)%Q ->
              (W <= iw * scale)%Q /\ (H <= ih * scale)%Q
              /\ (iw * scale == W \/ ih * scale == H)%Q))
  /\ (truthy_opt (State.bgImageUrl state) = false ->
      let w1 := world_of (drawBackground w) in
      Canvas.ops (World.bgCanvas w1) =
      Canvas.ops bg ++
      [ ClearRect 0 0 W H; SetFillStyle (State.bgColor state); FillRect 0 0 W H ]
      /\ World.pending w1 = World.pending w)
  /\ (forall event,
      let w1 := world_of (updateBackgroundColor event w) in
      State.bgImageUrl (World.state w1) = None
      /\ State.bgColor (World.state w1) = Event.value event
      /\ Canvas.ops (World.bgCanvas w1) =
         Canvas.ops bg ++
         [ ClearRect 0 0 W H; SetFillStyle (Event.value event); FillRect 0 0 W H ]).
Proof.
  intros state bg W H. split; [|split].
  - intros url Hurl Htruthy.
    assert (Himg : truthy_opt (State.bgImageUrl (World.state w)) = true).
    { fold state. rewrite Hurl. exact Htruthy. }
    cbv zeta. rewrite (drawBackground_image w Himg). fold state. rewrite Hurl.
    cbn [world_of src_of]. js_run.
    split; [reflexivity|]. split; [reflexivity|]. split; [reflexivity|].
    split; [reflexivity|]. intros iw ih. set (scale := Qmax (W / iw) (H / ih)).
    split; [|split; [field | split; [field|]]].
    + erewrite finish_last_background by reflexivity.
      rewrite dispatch_bgCanvas, drawBackground_onload_eq. cbv zeta.
      rewrite compose_bgCanvas. js_run. unfold callAll. js_run.
      rewrite <- app_assoc. reflexivity.
    + intros Hiw Hih.
      assert (Hiw0 := Qpos_nonzero _ Hiw). assert (Hih0 := Qpos_nonzero _ Hih).
      assert (EW : (iw * (W / iw) == W)%Q) by (field; assumption).
      assert (EH : (ih * (H / ih) == H)%Q) by (field; assumption).
      split; [|split].
      * rewrite <- EW at 1. apply Qmult_le_l; [assumption | apply Q.le_max_l].
      * rewrite <- EH at 1. apply Qmult_le_l; [assumption | apply Q.le_max_r].
      * unfold scale.
        destruct (Q.max_spec (W / iw) (H / ih)) as [[_ E]|[_ E]]; rewrite E.
        -- right. exact EH.
        -- left. exact EW.
  - intros Hcolor. cbv zeta. rewrite (drawBackground_color w Hcolor).
    rewrite compose_bgCanvas, compose_pending. split; reflexivity.
  - intros event. cbv zeta. unfold updateBackgroundColor. js_run.
    rewrite drawBackground_color by reflexivity.
    rewrite compose_state, compose_bgCanvas. repeat split.
Qed.

Lemma C5_drawBackground_witness :
  State.bgImageUrl (World.state pictureWorld) = Some "data:image/png;base64,AAAA"
  /\ World.pending (world_of (drawBackground pictureWorld)) =
     [LoadingImage "data:image/png;base64,AAAA" Background].
Proof.
  split; [reflexivity|].
  exact (proj1 (proj2 (proj2
           (proj1 (C5_drawBackground pictureWorld)
              "data:image/png;base64,AAAA" eq_refl eq_refl)))).
Defined.

(** A decode that is still running when the colour is chosen is not
    cancelled: when it finishes, its image is drawn over the colour although
    the image source has been cleared by then. *)
Example late_decode_draws_over_colour :
  let w1 := world_of (drawBackground pictureWorld) in
  let w2 := world_of (updateBackgroundColor (Event.mk "#123456" 0 []) w1) in
  let w3 := world_of (finish 0 800 600 w2) in
  State.bgImageUrl (World.state w3) = None
  /\ endsWithImage (Canvas.visible (World.bgCanvas w2)) = false
  /\ endsWithImage (Canvas.visible (World.bgCanvas w3)) = true.
Proof. vm_compute. repeat split. Qed.

(** ** The icon: fitting the image into the inner square *)

Section IconFit.
Local Open Scope Q_scope.

(** The icon is the last thing drawn on the working canvas, inside the
    clip, at the border plus the offsets of [fitIcon]. *)
Lemma tempCanvas_draws state squareImg :
  let fit := fitIcon squareImg (State.squareSize state - 2 * borderWidth) in
  exists before,
    tempCanvas state squareImg =
    before ++
    [ Clip;
      DrawImage squareImg (borderWidth + Fit.offsetX fit) (borderWidth + Fit.offsetY fit)
                (Fit.scaledWidth fit) (Fit.scaledHeight fit);
      Restore ].
Proof.
  intros fit. unfold tempCanvas. fold fit.
  match goal with
  | |- exists before, ?plate ++ ?clip ++ ?tail = _ =>
      exists (plate ++ removelast clip)
  end.
  rewrite <- app_assoc. reflexivity.
Qed.
End IconFit.

(** The arithmetic of [fitIcon] for an image of positive size and an inner
    square of non-zero side. *)
Lemma fitIcon_geometry (state : State.t) (squareImg : Image.t) :
  let size := (State.squareSize state - 2 * borderWidth)%Q in
  let ratio := (Image.width squareImg / Image.height squareImg)%Q in
  let fit := fitIcon squareImg size in
  (0 < Image.width squareImg)%Q -> (0 < Image.height squareImg)%Q -> ~ (size == 0)%Q ->
  ((1 < ratio)%Q -> fitsWidth fit size ratio)
  /\ ((ratio <= 1)%Q -> fitsHeight fit size ratio)
  /\ (Fit.scaledWidth fit / Fit.scaledHeight fit == ratio)%Q
  /\ ((0 < size)%Q -> (Fit.scaledWidth fit <= size)%Q /\ (Fit.scaledHeight fit <= size)%Q)
  /\ (exists before,
        tempCanvas state squareImg =
        before ++
        [ Clip;
          DrawImage squareImg (borderWidth + Fit.offsetX fit) (borderWidth + Fit.offsetY fit)
                    (Fit.scaledWidth fit) (Fit.scaledHeight fit);
          Restore ])
  /\ (borderWidth + Fit.offsetX fit + Fit.scaledWidth fit / 2 == borderWidth + size / 2)%Q
  /\ (borderWidth + Fit.offsetY fit + Fit.scaledHeight fit / 2 == borderWidth + size / 2)%Q.
Proof.
  intros size ratio fit Hw Hh Hs.
  assert (Hw0 := Qpos_nonzero _ Hw). assert (Hh0 := Qpos_nonzero _ Hh).
  assert (Hr : (0 < ratio)%Q).
  { unfold ratio, Qdiv. apply Qmult_lt_0_compat; [assumption|].
    apply Qinv_lt_0_compat. assumption. }
  assert (Hr0 := Qpos_nonzero _ Hr).
  split; [|split; [|split; [|split; [|split; [apply tempCanvas_draws|]]]]].
  - intros Hwide. unfold fit. rewrite fitIcon_wide by assumption. fold ratio.
    unfold fitsWidth. cbn [Fit.scaledWidth Fit.scaledHeight Fit.offsetX Fit.offsetY].
    repeat split; try reflexivity. field.
  - intros Htall. unfold fit. rewrite fitIcon_tall by assumption. fold ratio.
    unfold fitsHeight. cbn [Fit.scaledWidth Fit.scaledHeight Fit.offsetX Fit.offsetY].
    repeat split; try reflexivity. field.
  - destruct (Qlt_le_dec 1 ratio) as [Hwide|Htall]; unfold fit.
    + rewrite fitIcon_wide by assumption. fold ratio.
      cbn [Fit.scaledWidth Fit.scaledHeight]. field. split; assumption.
    + rewrite fitIcon_tall by assumption. fold ratio.
      cbn [Fit.scaledWidth Fit.scaledHeight]. field. assumption.
  - intros Hpos. destruct (Qlt_le_dec 1 ratio) as [Hwide|Htall]; unfold fit.
    + rewrite fitIcon_wide by assumption. fold ratio.
      cbn [Fit.scaledWidth Fit.scaledHeight]. split; [apply Qle_refl|].
      apply Qle_shift_div_r; [assumption|].
      setoid_replace size with (size * 1)%Q at 1 by ring.
      apply Qmult_le_l; [assumption | apply Qlt_le_weak, Hwide].
    + rewrite fitIcon_tall by assumption. fold ratio.
      cbn [Fit.scaledWidth Fit.scaledHeight]. split; [|apply Qle_refl].
      setoid_replace size with (size * 1)%Q at 2 by ring.
      apply Qmult_le_l; assumption.
  - unfold fit, fitIcon. cbn [Fit.scaledWidth Fit.scaledHeight Fit.offsetX Fit.offsetY].
    split; field.
Qed.


(** ** The icon redraw, from [drawSquareImage] to the end of its decode *)

Section IconRedraw.
Lemma compose_squareCanvas w :
  World.squareCanvas (world_of (composeCanvases w)) = World.squareCanvas w.
Proof.
  rewrite compose_world. destruct (World.ctx w && World.canvas w); reflexivity.
Qed.

Lemma dispatch_squareCanvas callback w :
  World.squareCanvas (world_of (dispatch callback w)) =
  World.squareCanvas (world_of (callback w)).
Proof. unfold dispatch. destruct (callback w); reflexivity. Qed.

(** Finishing the load that was started last, for the icon. *)
Lemma finish_last_square w url rest iw ih :
  World.pending w = rest ++ [LoadingImage url Square] ->
  finish (List.length rest) iw ih w =
  dispatch (drawSquareImage_onload (Image.mk url iw ih)) (World.set_pending rest w).
Proof.
  intros H. unfold finish. js_run. rewrite H, nth_error_snoc, removeNth_snoc.
  reflexivity.
Qed.

(** What the icon canvas holds after [drawSquareImage] and the end of the
    decode it started, however the compositor calls turn out. *)
Lemma drawSquareImage_then_load w url iw ih :
  State.squareImageUrl (World.state w) = Some url -> truthy url = true ->
  Canvas.ops (World.squareCanvas
    (world_of (finish (List.length (World.pending w)) iw ih
                 (world_of (drawSquareImage w))))) =
  Canvas.ops (World.squareCanvas w) ++
  squareCalls w (tempCanvas (World.state w) (Image.mk url iw ih)).
Proof.
  intros Hurl Htruthy.
  assert (Himg : truthy_opt (State.squareImageUrl (World.state w)) = true).
  { rewrite Hurl. exact Htruthy. }
  rewrite (drawSquareImage_image w Himg). rewrite Hurl. cbn [world_of src_of].
  erewrite finish_last_square by reflexivity.
  rewrite dispatch_squareCanvas, drawSquareImage_onload_eq. cbv zeta.
  rewrite compose_squareCanvas. js_run. unfold callAll, squareCalls. js_run.
  rewrite <- app_assoc. reflexivity.
Qed.
End IconRedraw.

(** C2, as amended.  With an icon picture set, [drawSquareImage] wipes the
    icon canvas and starts the decode; when the decode ends with an image
    of positive size, the working canvas is drawn on the icon canvas, and
    the last thing drawn on the working canvas, inside the clip, is the
    image, at the border plus the offsets of the fit.  For an inner square
    of non-zero side [size]: an image wider than high is fit to the width
    of the square and centred vertically; any other image is fit to the
    height and centred horizontally.  Either way the aspect ratio is kept,
    the image lies inside the square when [size] is positive, and its
    centre is the centre of the inner square. *)
Theorem C2_icon_fit (w : World.t) (url : string) (iw ih : Q) :
  let state := World.state w in
  let squareImg := Image.mk url iw ih in
  let size := (State.squareSize state - 2 * borderWidth)%Q in
  let ratio := (iw / ih)%Q in
  let fit := fitIcon squareImg size in
  let w2 := world_of (finish (List.length (World.pending w)) iw ih
                        (world_of (drawSquareImage w))) in
  State.squareImageUrl state = Some url -> truthy url = true ->
  (0 < iw)%Q -> (0 < ih)%Q -> ~ (size == 0)%Q ->
  (exists before,
     Canvas.ops (World.squareCanvas w2) =
     Canvas.ops (World.squareCanvas w) ++
     squareCalls w
       (before ++
        [ Clip;
          DrawImage squareImg (borderWidth + Fit.offsetX fit) (borderWidth + Fit.offsetY fit)
                    (Fit.scaledWidth fit) (Fit.scaledHeight fit);
          Restore ]))
  /\ ((1 < ratio)%Q -> fitsWidth fit size ratio)
  /\ ((ratio <= 1)%Q -> fitsHeight fit size ratio)
  /\ (Fit.scaledWidth fit / Fit.scaledHeight fit == ratio)%Q
  /\ ((0 < size)%Q -> (Fit.scaledWidth fit <= size)%Q /\ (Fit.scaledHeight fit <= size)%Q)
  /\ (borderWidth + Fit.offsetX fit + Fit.scaledWidth fit / 2 == borderWidth + size / 2)%Q
  /\ (borderWidth + Fit.offsetY fit + Fit.scaledHeight fit / 2 == borderWidth + size / 2)%Q.
Proof.
  intros state squareImg size ratio fit w2 Hurl Htruthy Hw Hh Hs.
  destruct (fitIcon_geometry state squareImg Hw Hh Hs)
    as (Hwide & Htall & Hratio & Hinside & _ & Hcx & Hcy).
  split; [|exact (conj Hwide (conj Htall (conj Hratio (conj Hinside (conj Hcx Hcy)))))].
  destruct (tempCanvas_draws state squareImg) as [before E].
  exists before. unfold w2. rewrite (drawSquareImage_then_load w url iw ih Hurl Htruthy).
  fold state squareImg. rewrite E. reflexivity.
Qed.

Lemma C2_icon_fit_witness :
  State.squareImageUrl (World.state iconWorld) = Some "data:image/png;base64,BBBB"
  /\ fitsWidth (fitIcon (Image.mk "data:image/png;base64,BBBB" 400 200)
                  (240 - 2 * borderWidth))
               (240 - 2 * borderWidth) (400 / 200).
Proof.
  split; [reflexivity|].
  refine (proj1 (proj2 (C2_icon_fit iconWorld "data:image/png;base64,BBBB" 400 200
                          eq_refl eq_refl _ _ _)) _);
    cbn; try reflexivity; discriminate.
Defined.

(** The claim as worded fails on a 400 by 200 image in a square of side
    200: its aspect ratio is above 1, yet it is not fit to the height. *)
Lemma C2_wide_image_not_fit_to_height :
  let img := Image.mk "data:wide" 400 200 in
  let fit := fitIcon img 200 in
  (1 < Image.width img / Image.height img)%Q
  /\ ~ fitsHeight fit 200 (Image.width img / Image.height img)
  /\ (Fit.scaledHeight fit == 100)%Q
  /\ (Fit.scaledWidth fit == 200)%Q.
Proof.
  cbv zeta. split; [reflexivity|]. split; [|split; reflexivity].
  intros [H _]. vm_compute in H. discriminate H.
Qed.

(** C7.  With [squareSize] 240 the inner square has side 200.  After
    [drawSquareImage] and the end of the decode it started, the icon canvas
    holds the working canvas, on which the image is the last thing drawn
    inside the clip.  A 400 by 200 image is drawn 200 wide and 100 high,
    at the left edge of the inner square, 50 below its top and ending 50
    above its bottom; a 200 by 400 image is drawn 100 wide and 200 high, at
    the top of the inner square, 50 right of its left edge and ending 50
    left of its right edge. *)
Theorem C7_icon_fit_examples (w : World.t) (url : string) :
  State.squareSize (World.state w) = 240%Q ->
  State.squareImageUrl (World.state w) = Some url -> truthy url = true ->
  let size := (State.squareSize (World.state w) - 2 * borderWidth)%Q in
  let loaded (iw ih : Q) :=
    world_of (finish (List.length (World.pending w)) iw ih
                (world_of (drawSquareImage w))) in
  (size == 200)%Q
  /\ (let wide := Image.mk url 400 200 in
      let fit := fitIcon wide size in
      (Fit.scaledWidth fit == 200)%Q /\ (Fit.scaledHeight fit == 100)%Q
      /\ (Fit.offsetX fit == 0)%Q /\ (Fit.offsetY fit == 50)%Q
      /\ (size - (Fit.offsetY fit + Fit.scaledHeight fit) == 50)%Q
      /\ exists before x y width height,
           Canvas.ops (World.squareCanvas (loaded 400%Q 200%Q)) =
           Canvas.ops (World.squareCanvas w) ++
           squareCalls w (before ++ [Clip; DrawImage wide x y width height; Restore])
           /\ (x == 20)%Q /\ (y == 70)%Q /\ (width == 200)%Q /\ (height == 100)%Q)
  /\ (let tall := Image.mk url 200 400 in
      let fit := fitIcon tall size in
      (Fit.scaledWidth fit == 100)%Q /\ (Fit.scaledHeight fit == 200)%Q
      /\ (Fit.offsetX fit == 50)%Q /\ (Fit.offsetY fit == 0)%Q
      /\ (size - (Fit.offsetX fit + Fit.scaledWidth fit) == 50)%Q
      /\ exists before x y width height,
           Canvas.ops (World.squareCanvas (loaded 200%Q 400%Q)) =
           Canvas.ops (World.squareCanvas w) ++
           squareCalls w (before ++ [Clip; DrawImage tall x y width height; Restore])
           /\ (x == 70)%Q /\ (y == 20)%Q /\ (width == 100)%Q /\ (height == 200)%Q).
Proof.
  intros Hsize Hurl Htruthy size loaded. unfold size, loaded.
  split; [rewrite Hsize; reflexivity|]. split.
  - cbv zeta. rewrite Hsize. repeat (split; [reflexivity|]).
    destruct (tempCanvas_draws (World.state w) (Image.mk url 400 200)) as [before E].
    rewrite Hsize in E. eexists before, _, _, _, _.
    split.
    + rewrite (drawSquareImage_then_load w url 400 200 Hurl Htruthy), E. reflexivity.
    + repeat split.
  - cbv zeta. rewrite Hsize. repeat (split; [reflexivity|]).
    destruct (tempCanvas_draws (World.state w) (Image.mk url 200 400)) as [before E].
    rewrite Hsize in E. eexists before, _, _, _, _.
    split.
    + rewrite (drawSquareImage_then_load w url 200 400 Hurl Htruthy), E. reflexivity.
    + repeat split.
Qed.

Lemma C7_icon_fit_examples_witness :
  State.squareSize (World.state iconWorld) = 240%Q
  /\ (Fit.offsetY (fitIcon (Image.mk "data:image/png;base64,BBBB" 400 200)
                    (240 - 2 * borderWidth)) == 50)%Q.
Proof.
  split; [reflexivity|].
  pose proof (C7_icon_fit_examples iconWorld "data:image/png;base64,BBBB"
                eq_refl eq_refl eq_refl) as H.
  exact (proj1 (proj2 (proj2 (proj2 (proj1 (proj2 H)))))).
Defined.

(** ** The title *)

Section TextFacts.
Local Open Scope Q_scope.

Lemma textDrawn_app l1 l2 : textDrawn (l1 ++ l2) = textDrawn l1 ++ textDrawn l2.
Proof.
  induction l1 as [|op l1 IH]; simpl; [reflexivity|].
  destruct op; simpl; rewrite ?IH; reflexivity.
Qed.

Lemma textSettings_paint state fontFamily :
  forallb (fun op => negb (Canvas.isClear op)) (textSettings state fontFamily) = true
  /\ textDrawn (textSettings state fontFamily) = []
  /\ In (SetTextAlign "center") (textSettings state fontFamily)
  /\ In (SetTextBaseline "middle") (textSettings state fontFamily).
Proof.
  unfold textSettings. destruct (Qgtb (State.text3D state) 0); simpl; tauto.
Qed.

Lemma lineCalls_paint x startY lineHeight lines : forall index,
  forallb (fun op => negb (Canvas.isClear op))
          (lineCalls x startY lineHeight index lines) = true.
Proof. induction lines as [|line rest IH]; intros index; simpl; auto. Qed.

Lemma lineCalls_length x startY lineHeight lines : forall index,
  List.length (textDrawn (lineCalls x startY lineHeight index lines)) = List.length lines.
Proof. induction lines as [|line rest IH]; intros index; simpl; auto. Qed.

Lemma lineCalls_nth x startY lineHeight lines : forall index i line,
  nth_error lines i = Some line ->
  nth_error (textDrawn (lineCalls x startY lineHeight index lines)) i =
  Some (line, x, startY + Qnat (index + i) * lineHeight).
Proof.
  induction lines as [|l rest IH]; intros index i line H.
  - destruct i; discriminate.
  - destruct i as [|i]; simpl in *.
    + injection H as ->. rewrite Nat.add_0_r. reflexivity.
    + rewrite (IH (S index) i line H), Nat.add_succ_r. reflexivity.
Qed.

(** What is on the text canvas after [drawText], however the compositor
    call at its end turns out. *)
Lemma drawText_visible w :
  Canvas.visible (World.textCanvas (world_of (drawText w))) =
  let state := World.state w in
  let textCanvas := World.textCanvas w in
  let lines := split_lines (State.text state) in
  let lineHeight := State.textSize state * State.lineHeight state in
  textSettings state (World.fontFamily w) ++
  lineCalls (Canvas.width textCanvas / 2)
    ((Canvas.height textCanvas - lineHeight * Qnat (List.length lines)) / 2 + lineHeight / 2)
    lineHeight 0 lines.
Proof.
  rewrite drawText_eq, compose_textCanvas. js_run. unfold textCalls.
  apply visible_after_clear. rewrite forallb_app.
  rewrite (proj1 (textSettings_paint _ _)), lineCalls_paint. reflexivity.
Qed.
End TextFacts.

(** C6.  [drawText] draws one [fillText] per line of the title, line [i]
    at half the width of the canvas and at the height the specification
    gives, with text alignment [center] and baseline [middle].  Successive
    lines are one line height apart and the block has equal margins above
    and below.  For the title of three lines A, BB, CCC at size 100 and
    line height 1 the lines sit at the middle of the canvas and 100 above
    and below it. *)
Theorem C6_drawText_lines (w : World.t) :
  let state := World.state w in
  let W := Canvas.width (World.textCanvas w) in
  let H := Canvas.height (World.textCanvas w) in
  let lines := split_lines (State.text state) in
  let lineCount := List.length lines in
  let lineHeight := (State.textSize state * State.lineHeight state)%Q in
  let shown := Canvas.visible (World.textCanvas (world_of (drawText w))) in
  List.length (textDrawn shown) = lineCount
  /\ (forall i line,
        nth_error lines i = Some line ->
        nth_error (textDrawn shown) i =
        Some (line, (W / 2)%Q, baseline H lineHeight lineCount i))
  /\ In (SetTextAlign "center") shown
  /\ In (SetTextBaseline "middle") shown
  /\ (forall i,
        (baseline H lineHeight lineCount (S i) - baseline H lineHeight lineCount i
         == lineHeight)%Q)
  /\ (baseline H lineHeight lineCount 0 - lineHeight / 2 ==
      H - (baseline H lineHeight lineCount (lineCount - 1) + lineHeight / 2))%Q
  /\ (State.text state = threeLines ->
      State.textSize state = 100%Q -> State.lineHeight state = 1%Q ->
      exists y0 y1 y2,
        textDrawn shown =
        [ ("A", (W / 2)%Q, y0); ("BB", (W / 2)%Q, y1); ("CCC", (W / 2)%Q, y2) ]
        /\ (y1 - y0 == 100)%Q /\ (y2 - y1 == 100)%Q
        /\ (y0 == H / 2 - 100)%Q /\ (y1 == H / 2)%Q /\ (y2 == H / 2 + 100)%Q
        /\ ((y2 + 50) - (y0 - 50) == 300)%Q
        /\ (y0 - 50 == H - (y2 + 50))%Q).
Proof.
  intros state W H lines lineCount lineHeight shown.
  assert (Hshown : shown =
    textSettings state (World.fontFamily w) ++
    lineCalls (W / 2)
      ((H - lineHeight * Qnat lineCount) / 2 + lineHeight / 2) lineHeight 0 lines).
  { unfold shown. rewrite drawText_visible. reflexivity. }
  assert (Hdrawn : textDrawn shown =
    textDrawn (lineCalls (W / 2)
      ((H - lineHeight * Qnat lineCount) / 2 + lineHeight / 2) lineHeight 0 lines)).
  { rewrite Hshown, textDrawn_app, (proj1 (proj2 (textSettings_paint _ _))).
    reflexivity. }
  split; [|split; [|split; [|split; [|split; [|split]]]]].
  - rewrite Hdrawn. apply lineCalls_length.
  - intros i line Hi. rewrite Hdrawn. apply (lineCalls_nth _ _ _ _ 0%nat i line Hi).
  - rewrite Hshown. apply in_or_app. left. apply textSettings_paint.
  - rewrite Hshown. apply in_or_app. left. apply textSettings_paint.
  - intros i. apply baseline_step.
  - assert (Hpos : exists n, lineCount = S n).
    { unfold lineCount, lines. destruct (State.text state) as [|c s]; simpl.
      - exists 0%nat. reflexivity.
      - destruct (Ascii.eqb c newline); [|destruct (split_lines s)]; simpl; eauto. }
    destruct Hpos as [n ->]. simpl Nat.sub. rewrite Nat.sub_0_r.
    apply baseline_centred.
  - intros Htext Hsize Hlh. rewrite Hdrawn.
    unfold lineCount, lines, lineHeight. rewrite Htext, Hsize, Hlh.
    unfold threeLines.
    cbn [split_lines Ascii.eqb newline Bool.eqb List.length lineCalls textDrawn].
    do 3 eexists. split; [reflexivity|].
    repeat split; unfold Qnat; simpl inject_Z; field.
Qed.

Lemma C6_drawText_lines_witness :
  exists y0 y1 y2,
    textDrawn (Canvas.visible (World.textCanvas (world_of (drawText threeLineWorld)))) =
    [ ("A", (1000 / 2)%Q, y0); ("BB", (1000 / 2)%Q, y1); ("CCC", (1000 / 2)%Q, y2) ]
    /\ (y0 == 150)%Q /\ (y1 == 250)%Q /\ (y2 == 350)%Q.
Proof.
  destruct (proj2 (proj2 (proj2 (proj2 (proj2 (proj2
              (C6_drawText_lines threeLineWorld))))))
              eq_refl eq_refl eq_refl)
    as (y0 & y1 & y2 & Hd & _ & _ & H0 & H1 & H2 & _).
  exists y0, y1, y2. split; [exact Hd|].
  rewrite H0, H1, H2. repeat split; reflexivity.
Defined.

(** ** The scheduler *)

Section SchedulerFacts.
Lemma scheduleUpdate_armed type event w :
  World.updateScheduled w = true ->
  scheduleUpdate type event w =
  Normal tt (World.set_updateQueue (World.updateQueue w ++ [(type, event)]) w).
Proof. intros H. unfold scheduleUpdate. js_run. rewrite H. reflexivity. Qed.

Lemma scheduleUpdate_idle type event w :
  World.updateScheduled w = false ->
  scheduleUpdate type event w =
  Normal tt
    (World.set_frameCallbacks (S (World.frameCallbacks w))
       (World.set_updateScheduled true
          (World.set_updateQueue (World.updateQueue w ++ [(type, event)]) w))).
Proof.
  intros H. unfold scheduleUpdate, requestAnimationFrame. js_run. rewrite H.
  reflexivity.
Qed.

Lemma schedule_more type events : forall w,
  World.updateScheduled w = true ->
  forEach events (scheduleUpdate type) w =
  Normal tt
    (World.set_updateQueue
       (World.updateQueue w ++ map (fun event => (type, event)) events) w).
Proof.
  induction events as [|event rest IH]; intros w H.
  - simpl. rewrite app_nil_r. destruct w. reflexivity.
  - cbn [forEach map].
    rewrite (bind_normal _ _ _ _ _ (scheduleUpdate_armed type event w H)).
    rewrite IH by exact H. js_run. rewrite <- app_assoc. reflexivity.
Qed.

(** Any number of calls in one frame arm a single callback. *)
Lemma schedule_burst type event rest w :
  World.updateScheduled w = false ->
  forEach (event :: rest) (scheduleUpdate type) w =
  Normal tt
    (World.set_frameCallbacks (S (World.frameCallbacks w))
       (World.set_updateScheduled true
          (World.set_updateQueue
             (World.updateQueue w ++ map (fun event => (type, event)) (event :: rest))
             w))).
Proof.
  intros H. cbn [forEach map].
  rewrite (bind_normal _ _ _ _ _ (scheduleUpdate_idle type event w H)).
  rewrite schedule_more by reflexivity. js_run. rewrite <- app_assoc. reflexivity.
Qed.

Lemma clears_composed_preview w :
  Canvas.clears (World.preview (composed w)) = S (Canvas.clears (World.preview w)).
Proof.
  unfold composed. js_run. rewrite clears_callAll. simpl. lia.
Qed.

Lemma textCalls_one_clear w :
  List.length (filter Canvas.isClear (textCalls w)) = 1.
Proof.
  unfold textCalls. cbn [filter Canvas.isClear List.length]. f_equal.
  rewrite filter_app.
  assert (Hnone : forall l,
            forallb (fun op => negb (Canvas.isClear op)) l = true ->
            filter Canvas.isClear l = []).
  { induction l as [|op l IH]; simpl; [reflexivity|].
    destruct (Canvas.isClear op); simpl; [discriminate | exact IH]. }
  rewrite (Hnone _ (proj1 (textSettings_paint _ _))).
  rewrite (Hnone _ (lineCalls_paint _ _ _ _ _)). reflexivity.
Qed.

(** One [drawText] on a ready page: one more wipe of the text canvas,
    one more compositor pass, nothing else touched. *)
Lemma drawText_counts w :
  ready w ->
  exists w',
    drawText w = Normal tt w'
    /\ ready w'
    /\ World.state w' = World.state w
    /\ Canvas.clears (World.textCanvas w') = S (Canvas.clears (World.textCanvas w))
    /\ Canvas.clears (World.preview w') = S (Canvas.clears (World.preview w))
    /\ Canvas.clears (World.bgCanvas w') = Canvas.clears (World.bgCanvas w)
    /\ Canvas.clears (World.watermarkCanvas w') = Canvas.clears (World.watermarkCanvas w)
    /\ Canvas.clears (World.squareCanvas w') = Canvas.clears (World.squareCanvas w)
    /\ World.console w' = World.console w
    /\ World.updateQueue w' = World.updateQueue w.
Proof.
  intros Hw. eexists. split; [apply drawText_ready, Hw|].
  split; [exact Hw|]. split; [reflexivity|].
  split.
  { unfold composed. js_run. rewrite clears_callAll, textCalls_one_clear. lia. }
  split.
  { rewrite clears_composed_preview. reflexivity. }
  repeat split.
Qed.

Lemma processUpdate_textColor needsRedraw event w :
  processUpdate needsRedraw ("textColor", event) w =
  bind (updateTextColor event) (fun _ => ret (NeedsRedraw.set_text needsRedraw)) w.
Proof. reflexivity. Qed.

Lemma updateTextColor_counts event w :
  ready w ->
  exists w',
    updateTextColor event w = Normal tt w'
    /\ ready w'
    /\ State.textColor (World.state w') = Event.value event
    /\ Canvas.clears (World.textCanvas w') = S (Canvas.clears (World.textCanvas w))
    /\ Canvas.clears (World.preview w') = S (Canvas.clears (World.preview w))
    /\ Canvas.clears (World.bgCanvas w') = Canvas.clears (World.bgCanvas w)
    /\ Canvas.clears (World.watermarkCanvas w') = Canvas.clears (World.watermarkCanvas w)
    /\ Canvas.clears (World.squareCanvas w') = Canvas.clears (World.squareCanvas w)
    /\ World.console w' = World.console w
    /\ World.updateQueue w' = World.updateQueue w.
Proof.
  intros Hw. unfold updateTextColor, modifyState. rewrite bind_modify.
  set (w1 := World.set_state _ w).
  destruct (drawText_counts w1 Hw)
    as (w' & E & Hr & Hs & Ht & Hp & Hb & Hwm & Hsq & Hc & Hq).
  exists w'. split; [exact E|]. split; [exact Hr|].
  split; [rewrite Hs; reflexivity|].
  repeat split; assumption.
Qed.

Lemma processUpdates_textColor events : forall needsRedraw w,
  ready w ->
  exists w',
    processUpdates needsRedraw (map (fun event => ("textColor", event)) events) w =
    Normal (match events with
            | [] => needsRedraw
            | _ :: _ => NeedsRedraw.set_text needsRedraw
            end) w'
    /\ ready w'
    /\ Canvas.clears (World.textCanvas w') =
       Canvas.clears (World.textCanvas w) + List.length events
    /\ Canvas.clears (World.preview w') =
       Canvas.clears (World.preview w) + List.length events
    /\ Canvas.clears (World.bgCanvas w') = Canvas.clears (World.bgCanvas w)
    /\ Canvas.clears (World.watermarkCanvas w') = Canvas.clears (World.watermarkCanvas w)
    /\ Canvas.clears (World.squareCanvas w') = Canvas.clears (World.squareCanvas w)
    /\ World.console w' = World.console w
    /\ World.updateQueue w' = World.updateQueue w.
Proof.
  induction events as [|event rest IH]; intros needsRedraw w Hw.
  - exists w. simpl. rewrite !Nat.add_0_r. repeat split; apply Hw.
  - cbn [map processUpdates]. 
    destruct (updateTextColor_counts event w Hw)
      as (w1 & E & Hr & _ & Ht & Hp & Hb & Hwm & Hsq & Hc & Hq).
    destruct (IH (NeedsRedraw.set_text needsRedraw) w1 Hr)
      as (w' & E' & Hr' & Ht' & Hp' & Hb' & Hwm' & Hsq' & Hc' & Hq').
    exists w'. split.
    { erewrite bind_normal; cycle 1.
      { rewrite processUpdate_textColor. erewrite bind_normal by exact E.
        reflexivity. }
      rewrite E'. destruct rest; reflexivity. }
    split; [exact Hr'|]. cbn [List.length].
    repeat split; try congruence; lia.
Qed.
End SchedulerFacts.

(** C1 fails on the code.  On a ready page with an idle scheduler, [N]
    events of kind [textColor] scheduled within one frame arm one callback,
    and that one flush wipes and redraws the text canvas [N + 1] times and
    runs the compositor [N + 2] times: once per event inside its update
    function, once more for the flag, and the closing pass.  No other layer
    is redrawn and nothing is raised. *)
Theorem C1_textColor_flush_counts (w : World.t) (event : Event.t) (rest : list Event.t) :
  ready w ->
  World.updateQueue w = [] ->
  World.updateScheduled w = false ->
  World.frameCallbacks w = 0 ->
  let N := List.length (event :: rest) in
  let w1 := world_of (forEach (event :: rest) (scheduleUpdate "textColor") w) in
  let w2 := world_of (animationFrame w1) in
  World.frameCallbacks w1 = 1
  /\ List.length (World.updateQueue w1) = N
  /\ Canvas.clears (World.textCanvas w2) = Canvas.clears (World.textCanvas w) + N + 1
  /\ Canvas.clears (World.preview w2) = Canvas.clears (World.preview w) + N + 2
  /\ Canvas.clears (World.bgCanvas w2) = Canvas.clears (World.bgCanvas w)
  /\ Canvas.clears (World.watermarkCanvas w2) = Canvas.clears (World.watermarkCanvas w)
  /\ Canvas.clears (World.squareCanvas w2) = Canvas.clears (World.squareCanvas w)
  /\ World.updateQueue w2 = []
  /\ World.console w2 = World.console w.
Proof.
  intros Hw Hq Hs Hf N w1 w2.
  assert (E1 : w1 =
    World.set_frameCallbacks 1
      (World.set_updateScheduled true
         (World.set_updateQueue
            (map (fun e => ("textColor", e)) (event :: rest)) w))).
  { unfold w1. rewrite schedule_burst by exact Hs. rewrite Hq, Hf. reflexivity. }
  set (w0 := World.set_updateScheduled false
               (World.set_updateQueue []
                  (World.set_frameCallbacks 0 w1))).
  assert (Hw0 : ready w0) by (unfold w0; rewrite E1; exact Hw).
  destruct (processUpdates_textColor (event :: rest) NeedsRedraw.none w0 Hw0)
    as (wa & Ea & Hra & Hta & Hpa & Hba & Hwma & Hsqa & Hca & Hqa).
  destruct (drawText_counts wa Hra)
    as (wb & Eb & Hrb & _ & Htb & Hpb & Hbb & Hwmb & Hsqb & Hcb & Hqb).
  assert (E2 : processBatchUpdates (World.set_frameCallbacks 0 w1) =
               Normal tt (composed wb)).
  { unfold processBatchUpdates. js_run.
    replace (World.updateQueue w1)
      with (map (fun e => ("textColor", e)) (event :: rest))
      by (rewrite E1; reflexivity).
    change (processUpdates NeedsRedraw.none
              (map (fun e => ("textColor", e)) (event :: rest)) w0)
      with (processUpdates NeedsRedraw.none
              (map (fun event => ("textColor", event)) (event :: rest)) w0).
    fold w0. rewrite Ea. cbn [NeedsRedraw.set_text NeedsRedraw.none
      NeedsRedraw.background NeedsRedraw.text NeedsRedraw.watermark NeedsRedraw.square].
    rewrite Eb. apply compose_pass, Hrb. }
  assert (E3 : w2 = composed wb).
  { unfold w2, animationFrame. js_run.
    replace (World.frameCallbacks w1) with 1 by (rewrite E1; reflexivity).
    cbn [runFrameCallbacks]. unfold dispatch at 1. js_run.
    rewrite E2. reflexivity. }
  assert (Ew0t : Canvas.clears (World.textCanvas w0) = Canvas.clears (World.textCanvas w))
    by (unfold w0; rewrite E1; reflexivity).
  assert (Ew0p : Canvas.clears (World.preview w0) = Canvas.clears (World.preview w))
    by (unfold w0; rewrite E1; reflexivity).
  split; [rewrite E1; reflexivity|].
  split; [rewrite E1; cbn [World.updateQueue World.set_frameCallbacks
            World.set_updateScheduled World.set_updateQueue]; apply length_map|].
  rewrite E3. rewrite clears_composed_preview.
  change (World.textCanvas (composed wb)) with (World.textCanvas wb).
  change (World.bgCanvas (composed wb)) with (World.bgCanvas wb).
  change (World.watermarkCanvas (composed wb)) with (World.watermarkCanvas wb).
  change (World.squareCanvas (composed wb)) with (World.squareCanvas wb).
  change (World.updateQueue (composed wb)) with (World.updateQueue wb).
  change (World.console (composed wb)) with (World.console wb).
  unfold N.
  split; [lia|]. split; [lia|].
  split; [rewrite Hbb, Hba; unfold w0; rewrite E1; reflexivity|].
  split; [rewrite Hwmb, Hwma; unfold w0; rewrite E1; reflexivity|].
  split; [rewrite Hsqb, Hsqa; unfold w0; rewrite E1; reflexivity|].
  split; [rewrite Hqb, Hqa; reflexivity|].
  rewrite Hcb, Hca. unfold w0. rewrite E1. reflexivity.
Qed.

Lemma C1_textColor_flush_counts_witness :
  let w1 := world_of (forEach burst (scheduleUpdate "textColor") sampleWorld) in
  let w2 := world_of (animationFrame w1) in
  ready sampleWorld
  /\ Canvas.clears (World.textCanvas w2) = Canvas.clears (World.textCanvas sampleWorld) + 2 + 1
  /\ Canvas.clears (World.preview w2) = Canvas.clears (World.preview sampleWorld) + 2 + 2.
Proof.
  cbv zeta. split; [split; reflexivity|].
  pose proof (C1_textColor_flush_counts sampleWorld
                (Event.mk "#ff0000" 0 []) [Event.mk "#00ff00" 0 []]
                (conj eq_refl eq_refl) eq_refl eq_refl eq_refl) as H.
  exact (conj (proj1 (proj2 (proj2 H))) (proj1 (proj2 (proj2 (proj2 H))))).
Defined.

(** The same flush, run: two [textColor] events in one frame redraw the
    text three times and composite four times; a single event already
    redraws twice and composites three times. *)
Example two_textColor_events :
  let w1 := world_of (forEach burst (scheduleUpdate "textColor") sampleWorld) in
  let w2 := world_of (animationFrame w1) in
  Canvas.clears (World.textCanvas sampleWorld) = 1
  /\ Canvas.clears (World.preview sampleWorld) = 4
  /\ Canvas.clears (World.textCanvas w2) = 4
  /\ Canvas.clears (World.preview w2) = 8
  /\ State.textColor (World.state w2) = "#00ff00".
Proof. vm_compute. repeat split. Qed.

Example one_textColor_event :
  let w1 := world_of (scheduleUpdate "textColor" (Event.mk "#ff0000" 0 []) sampleWorld) in
  let w2 := world_of (animationFrame w1) in
  Canvas.clears (World.textCanvas w2) = Canvas.clears (World.textCanvas sampleWorld) + 2
  /\ Canvas.clears (World.preview w2) = Canvas.clears (World.preview sampleWorld) + 3.
Proof. vm_compute. repeat split. Qed.

(** The update function for [lineHeight] is empty, so a burst of such
    events redraws the text once; the compositor still runs twice, and
    [state.lineHeight] keeps its old value. *)
Example two_lineHeight_events :
  let w1 := world_of (forEach [Event.mk "2" 2 []; Event.mk "3" 3 []]
                        (scheduleUpdate "lineHeight") sampleWorld) in
  let w2 := world_of (animationFrame w1) in
  Canvas.clears (World.textCanvas w2) = Canvas.clears (World.textCanvas sampleWorld) + 1
  /\ Canvas.clears (World.preview w2) = Canvas.clears (World.preview sampleWorld) + 2
  /\ State.lineHeight (World.state w2) = State.lineHeight (World.state sampleWorld).
Proof. vm_compute. repeat split. Qed.
